(** * MessageHeader: the CHIP message header codec

    A shallow embedding of [src/transport/MessageHeader.cpp]
    ([MessageHeader::EncodeSizeBytes], [MessageHeader::Decode] and
    [MessageHeader::Encode]) together with the properties of the codec.

    Header format (little endian):
<<
      16 bit: | VERSION: 4 bit | FLAGS: 4 bit | RESERVED: 8 bit |
      32 bit: | MESSAGE_ID                                      |
      64 bit: | SOURCE_NODE_ID (iff source node flag is set)    |
      64 bit: | DEST_NODE_ID (iff destination node flag is set) |
>>
*)

From Stdlib Require Import ZArith List Bool Lia.
From coqutil Require Import Byte Word.LittleEndianList.
Import ListNotations.
Local Open Scope Z_scope.

(** ** Machine integers *)

(** [size_t] is taken to be 64 bits wide; arithmetic on it wraps. *)
Definition size_t_bits : Z := 64.
Definition size_t_wrap (z : Z) : Z := z mod 2 ^ size_t_bits.
Definition uint16_wrap (z : Z) : Z := z mod 2 ^ 16.

(** ** Memory seen through a [uint8_t *]

    A buffer is handed over as a pointer [data] and a stated length [size].
    The pointer is modelled by the bytes found at each offset from it; the
    stated length is a separate number, exactly as in the C++ signature, so
    that an access at an offset beyond the stated length is observable. *)

Definition memory : Type := Z -> byte.

(** The [n] offsets starting at [p]. *)
Definition span (p : Z) (n : nat) : list Z :=
  map (fun i => p + Z.of_nat i) (seq 0 n).

Definition load (m : memory) (p : Z) (n : nat) : list byte :=
  map m (span p n).

Definition store1 (m : memory) (a : Z) (b : byte) : memory :=
  fun x => if x =? a then b else m x.

Fixpoint store (m : memory) (p : Z) (bs : list byte) : memory :=
  match bs with
  | [] => m
  | b :: bs' => store (store1 m p b) (p + 1) bs'
  end.

(** A finite byte string placed at offset 0, zero beyond it. *)
Definition memory_of (bs : list byte) : memory :=
  fun a => if a <? 0 then Byte.x00 else nth (Z.to_nat a) bs Byte.x00.

(** ** Error codes ([core/CHIPError.h]) *)

Inductive CHIP_ERROR : Type :=
| CHIP_NO_ERROR
| CHIP_ERROR_INVALID_ARGUMENT
| CHIP_ERROR_VERSION_MISMATCH.

(** ** The header object *)

(** [NodeId] is [uint64_t], the message id is [uint32_t]; the two node ids
    are [Optional<NodeId>], rendered as [option]. *)
Record MessageHeader : Type := mkMessageHeader {
  mMessageId : Z;
  mSourceNodeId : option Z;
  mDestinationNodeId : option Z
}.

(** Modelled from the spec: [Optional<T>] of [core/Optional.h], a header
    outside [MessageHeader.cpp]; absence is a state of its own, distinct
    from every numeric value. *)
Definition HasValue {T : Type} (o : option T) : bool :=
  match o with Some _ => true | None => false end.

(** The values a header object can hold, given the C++ field types. *)
Definition uint_in (bits : Z) (z : Z) : Prop := 0 <= z < 2 ^ bits.

Definition opt_in (bits : Z) (o : option Z) : Prop :=
  match o with Some v => uint_in bits v | None => True end.

Definition header_wf (h : MessageHeader) : Prop :=
  uint_in 32 (mMessageId h) /\
  opt_in 64 (mSourceNodeId h) /\
  opt_in 64 (mDestinationNodeId h).

(** ** Constants of the anonymous namespace *)

Definition kFixedHeaderSizeBytes : Z := 6.
Definition kNodeIdSizeBytes : Z := 8.

Definition kFlagDestinationNodeIdPresent : Z := 0x0100.
Definition kFlagSourceNodeIdPresent : Z := 0x0200.

Definition kVersionMask : Z := 0xF000.
Definition kVersionShift : Z := 12.

(** ** Control flow: a state monad with [goto exit] and [assert]

    The state of a computation is the frame of local variables of the
    function being run.  [Exit] is the jump to the [exit:] label, [Abort] a
    failed [assert]; in both cases the frame reached so far is kept. *)

Inductive Ctl (A : Type) : Type :=
| Next (a : A)
| Exit
| Abort.
Arguments Next {A} a.
Arguments Exit {A}.
Arguments Abort {A}.

Definition M (St A : Type) : Type := St -> Ctl A * St.

Definition ret {St A} (a : A) : M St A := fun s => (Next a, s).

Definition bind {St A B} (c : M St A) (k : A -> M St B) : M St B :=
  fun s =>
    match c s with
    | (Next a, s') => k a s'
    | (Exit, s') => (Exit, s')
    | (Abort, s') => (Abort, s')
    end.

Definition get {St} : M St St := fun s => (Next s, s).
Definition modify {St} (f : St -> St) : M St unit := fun s => (Next tt, f s).
Definition goto_exit {St A} : M St A := fun s => (Exit, s).

Declare Scope cpp_scope.
Delimit Scope cpp_scope with cpp.
Notation "x <- c ;; k" := (bind c (fun x => k))
  (at level 61, c at next level, right associativity) : cpp_scope.
Notation "c ;; k" := (bind c (fun _ => k))
  (at level 61, right associativity) : cpp_scope.
Local Open Scope cpp_scope.

(** [VerifyOrExit(cond, action)] of [support/CodeUtils.h]:
    [if (!(cond)) { action; goto exit; }]. *)
Definition VerifyOrExit {St} (cond : bool) (action : M St unit) : M St unit :=
  if cond then ret tt else (action ;; goto_exit).

Definition assert {St} (cond : bool) : M St unit :=
  if cond then ret tt else (fun s => (Abort, s)).

(** ** [MessageHeader::EncodeSizeBytes] *)

Definition EncodeSizeBytes (this : MessageHeader) : Z :=
  let size := kFixedHeaderSizeBytes in
  let size :=
    if HasValue (mSourceNodeId this)
    then size_t_wrap (size + kNodeIdSizeBytes) else size in
  let size :=
    if HasValue (mDestinationNodeId this)
    then size_t_wrap (size + kNodeIdSizeBytes) else size in
  size.

(** ** [MessageHeader::Decode] *)

(** The object and the locals of [Decode].  [d_p] is the cursor [p] as an
    offset from [data]; [d_reads] is the list of the offsets read so far, in
    order: it is not a variable of the program but a record of its
    accesses. *)
Record DecodeFrame : Type := mkDecodeFrame {
  d_this : MessageHeader;
  d_err : CHIP_ERROR;
  d_p : Z;
  d_size : Z;
  d_reads : list Z
}.

Definition d_set_err (e : CHIP_ERROR) : M DecodeFrame unit :=
  modify (fun f => mkDecodeFrame (d_this f) e (d_p f) (d_size f) (d_reads f)).

Definition d_set_this (g : MessageHeader -> MessageHeader) : M DecodeFrame unit :=
  modify (fun f => mkDecodeFrame (g (d_this f)) (d_err f) (d_p f) (d_size f) (d_reads f)).

(** [size -= n] on a [size_t]. *)
Definition d_size_sub (n : Z) : M DecodeFrame unit :=
  modify (fun f =>
    mkDecodeFrame (d_this f) (d_err f) (d_p f) (size_t_wrap (d_size f - n)) (d_reads f)).

Definition set_mMessageId (v : Z) (h : MessageHeader) : MessageHeader :=
  mkMessageHeader v (mSourceNodeId h) (mDestinationNodeId h).

Definition set_mSourceNodeId (o : option Z) (h : MessageHeader) : MessageHeader :=
  mkMessageHeader (mMessageId h) o (mDestinationNodeId h).

Definition set_mDestinationNodeId (o : option Z) (h : MessageHeader) : MessageHeader :=
  mkMessageHeader (mMessageId h) (mSourceNodeId h) o.

(** Modelled from the spec: the little-endian read helpers
    [LittleEndian::Read16/Read32/Read64] of [core/CHIPEncoding.h], a header
    outside [MessageHeader.cpp].  Each takes the cursor by reference,
    reads the next [n] bytes as a little-endian integer and advances the
    cursor by [n]. *)
Definition Read (n : nat) (data : memory) : M DecodeFrame Z :=
  fun f =>
    (Next (le_combine (load data (d_p f) n)),
     mkDecodeFrame (d_this f) (d_err f) (d_p f + Z.of_nat n) (d_size f)
                   (d_reads f ++ span (d_p f) n)).

Definition Read16 := Read 2.
Definition Read32 := Read 4.
Definition Read64 := Read 8.

Section Codec.

(** [kHeaderVersion] is declared in [MessageHeader.h], outside
    [MessageHeader.cpp]: the codec is parametric in it.  The header word
    has four bits for the version. *)
Variable kHeaderVersion : Z.

(** Lines 61-70: the fixed part.  Yields the header word. *)
Definition Decode_fixed (data : memory) : M DecodeFrame Z :=
  f <- get ;;
  VerifyOrExit (d_size f >=? kFixedHeaderSizeBytes)
               (d_set_err CHIP_ERROR_INVALID_ARGUMENT) ;;
  header <- Read16 data ;;
  let version := Z.shiftr (Z.land header kVersionMask) kVersionShift in
  VerifyOrExit (version =? kHeaderVersion)
               (d_set_err CHIP_ERROR_VERSION_MISMATCH) ;;
  v <- Read32 data ;;
  d_set_this (set_mMessageId v) ;;
  f <- get ;;
  assert (d_p f =? kFixedHeaderSizeBytes) ;;
  d_size_sub kFixedHeaderSizeBytes ;;
  ret header.

(** Lines 72-81: the source node id. *)
Definition Decode_source (data : memory) (header : Z) : M DecodeFrame unit :=
  if negb (Z.land header kFlagSourceNodeIdPresent =? 0) then
    f <- get ;;
    VerifyOrExit (d_size f >=? kNodeIdSizeBytes)
                 (d_set_err CHIP_ERROR_INVALID_ARGUMENT) ;;
    v <- Read64 data ;;
    d_set_this (set_mSourceNodeId (Some v)) ;;
    d_size_sub kFixedHeaderSizeBytes
  else
    d_set_this (set_mSourceNodeId None).

(** Lines 83-92: the destination node id. *)
Definition Decode_destination (data : memory) (header : Z) : M DecodeFrame unit :=
  if negb (Z.land header kFlagDestinationNodeIdPresent =? 0) then
    f <- get ;;
    VerifyOrExit (d_size f >=? kNodeIdSizeBytes)
                 (d_set_err CHIP_ERROR_INVALID_ARGUMENT) ;;
    v <- Read64 data ;;
    d_set_this (set_mDestinationNodeId (Some v)) ;;
    d_size_sub kFixedHeaderSizeBytes
  else
    d_set_this (set_mDestinationNodeId None).

Definition Decode_body (data : memory) : M DecodeFrame unit :=
  header <- Decode_fixed data ;;
  Decode_source data header ;;
  Decode_destination data header.

(** [this->Decode(data, size)]: the control outcome and the final frame.
    Unless the outcome is [Abort], the function returns [d_err] of the
    final frame, and [d_this] is the object as the call leaves it. *)
Definition Decode (data : memory) (size : Z) (this : MessageHeader)
  : Ctl unit * DecodeFrame :=
  Decode_body data (mkDecodeFrame this CHIP_NO_ERROR 0 size []).

(** ** [MessageHeader::Encode] *)

(** The locals of [Encode], the memory behind [data] and the cell behind
    [encode_size].  [e_writes] records the offsets written, in order. *)
Record EncodeFrame : Type := mkEncodeFrame {
  e_mem : memory;
  e_encode_size : Z;
  e_err : CHIP_ERROR;
  e_p : Z;
  e_header : Z;
  e_writes : list Z
}.

Definition e_set_err (e : CHIP_ERROR) : M EncodeFrame unit :=
  modify (fun f =>
    mkEncodeFrame (e_mem f) (e_encode_size f) e (e_p f) (e_header f) (e_writes f)).

(** [header |= flag] on a [uint16_t]. *)
Definition e_header_or (flag : Z) : M EncodeFrame unit :=
  modify (fun f =>
    mkEncodeFrame (e_mem f) (e_encode_size f) (e_err f) (e_p f)
                  (uint16_wrap (Z.lor (e_header f) flag)) (e_writes f)).

(** [*encode_size = p - data]. *)
Definition e_store_encode_size : M EncodeFrame unit :=
  modify (fun f =>
    mkEncodeFrame (e_mem f) (e_p f) (e_err f) (e_p f) (e_header f) (e_writes f)).

(** Modelled from the spec: the little-endian write helpers
    [LittleEndian::Write16/Write32/Write64] of [core/CHIPEncoding.h], a
    header outside [MessageHeader.cpp].  Each takes the cursor by reference,
    stores the low [n] bytes of the value in little-endian order and
    advances the cursor by [n]. *)
Definition Write (n : nat) (v : Z) : M EncodeFrame unit :=
  modify (fun f =>
    mkEncodeFrame (store (e_mem f) (e_p f) (le_split n v)) (e_encode_size f)
                  (e_err f) (e_p f + Z.of_nat n) (e_header f)
                  (e_writes f ++ span (e_p f) n)).

Definition Write16 := Write 2.
Definition Write32 := Write 4.
Definition Write64 := Write 8.

Definition when {St} (c : bool) (m : M St unit) : M St unit :=
  if c then m else ret tt.

Definition Encode_body (size : Z) (this : MessageHeader) : M EncodeFrame unit :=
  VerifyOrExit (size >=? EncodeSizeBytes this)
               (e_set_err CHIP_ERROR_INVALID_ARGUMENT) ;;
  when (HasValue (mSourceNodeId this)) (e_header_or kFlagSourceNodeIdPresent) ;;
  when (HasValue (mDestinationNodeId this))
       (e_header_or kFlagDestinationNodeIdPresent) ;;
  f <- get ;;
  Write16 (e_header f) ;;
  Write32 (mMessageId this) ;;
  match mSourceNodeId this with
  | Some v => Write64 v
  | None => ret tt
  end ;;
  match mDestinationNodeId this with
  | Some v => Write64 v
  | None => ret tt
  end ;;
  e_store_encode_size.

(** [this->Encode(data, size, encode_size)]: [data] is the memory behind the
    pointer, [encode_size] the prior content of the cell the third argument
    points to.  Unless the outcome is [Abort] the function returns [e_err]
    of the final frame. *)
Definition Encode (data : memory) (size : Z) (encode_size : Z)
                  (this : MessageHeader) : Ctl unit * EncodeFrame :=
  Encode_body size this
    (mkEncodeFrame data encode_size CHIP_NO_ERROR 0
                   (uint16_wrap (Z.shiftl kHeaderVersion kVersionShift)) []).

End Codec.

(** What the caller of either function gets back. *)
Definition returned {St} (err : St -> CHIP_ERROR) (r : Ctl unit * St)
  : option CHIP_ERROR :=
  match fst r with
  | Abort => None
  | _ => Some (err (snd r))
  end.

Definition Decode_returns V data size this : option CHIP_ERROR :=
  returned d_err (Decode V data size this).

Definition Encode_returns V data size encode_size this : option CHIP_ERROR :=
  returned e_err (Encode V data size encode_size this).

(** The header word and what [Decode] extracts from it. *)
Definition header_word (data : memory) : Z := le_combine (load data 0 2).

Definition version_of (header : Z) : Z :=
  Z.shiftr (Z.land header kVersionMask) kVersionShift.

Definition flag_set (header flag : Z) : bool :=
  negb (Z.land header flag =? 0).

(** ** The layout [Encode] produces, in closed form *)

(** The header word [Encode] builds. *)
Definition encoded_word (V : Z) (src dst : bool) : Z :=
  let w := uint16_wrap (Z.shiftl V kVersionShift) in
  let w := if src then uint16_wrap (Z.lor w kFlagSourceNodeIdPresent) else w in
  let w := if dst then uint16_wrap (Z.lor w kFlagDestinationNodeIdPresent) else w in
  w.

(** The bytes [Encode] lays out for a header. *)
Definition encoding (V : Z) (h : MessageHeader) : list byte :=
  le_split 2 (encoded_word V (HasValue (mSourceNodeId h))
                             (HasValue (mDestinationNodeId h))) ++
  le_split 4 (mMessageId h) ++
  match mSourceNodeId h with Some v => le_split 8 v | None => [] end ++
  match mDestinationNodeId h with Some v => le_split 8 v | None => [] end.

(** ** Concrete buffers and headers *)

Definition bytes (l : list Z) : list byte := map byte.of_Z l.

Definition blank : MessageHeader := mkMessageHeader 0 None None.

Definition stale : MessageHeader := mkMessageHeader 7 (Some 8) (Some 9).

(** Version 1, both flags set, message id [0x01020304], source node id
    [0x1122334455667788], and only six of the eight bytes of a destination
    node id: twenty bytes in all. *)
Definition truncated_both : list byte :=
  bytes [0x00; 0x13; 0x04; 0x03; 0x02; 0x01;
         0x88; 0x77; 0x66; 0x55; 0x44; 0x33; 0x22; 0x11;
         0xAA; 0xBB; 0xCC; 0xDD; 0xEE; 0xFF].

(** The same header with its full twenty-two bytes. *)
Definition complete_both : list byte :=
  truncated_both ++ bytes [0x55; 0x66].

(** Version 2 in the header word, source flag set. *)
Definition other_version : list byte :=
  bytes [0x00; 0x22; 0x04; 0x03; 0x02; 0x01].

Definition scenario1 : MessageHeader := mkMessageHeader 0x01020304 None None.

Definition scenario2 : MessageHeader :=
  mkMessageHeader 0x01020304 (Some 0x1122334455667788) None.

Definition scenario_both : MessageHeader :=
  mkMessageHeader 0x01020304 (Some 0x1122334455667788) (Some 0x99AABBCCDDEEFF00).

Definition zeros : memory := fun _ => Byte.x00.

(** The buffer [complete_both] with every reserved bit and both unassigned
    flag bits of the header word set: header word [0x1FFF]. *)
Definition reserved_set : memory :=
  fun i => if i <? 2
           then (if i =? 0 then Byte.xff else Byte.x1f)
           else memory_of complete_both i.

(** The buffer [complete_both] followed by bytes [0xFF] instead of zeros. *)
Definition other_tail : memory :=
  fun i => if i <? 22 then memory_of complete_both i else Byte.xff.

(** ** Checking a property of every 16-bit word *)

(** [P] holds of the [n] integers from [z] on. *)
Fixpoint all_from (n : nat) (z : Z) (P : Z -> bool) : bool :=
  match n with
  | O => true
  | S n' => P z && all_from n' (z + 1) P
  end.

(** Re-encoding what [Decode] reads in a header word keeps the word under
    the mask [0xF300]. *)
Definition word_kept (w : Z) : bool :=
  encoded_word (version_of w)
               (flag_set w kFlagSourceNodeIdPresent)
               (flag_set w kFlagDestinationNodeIdPresent)
  =? Z.land w 0xF300.

(** * Properties *)

(** ** Memory *)

Lemma span_cons p n : span p (S n) = p :: span (p + 1) n.
Proof.
  unfold span. cbn [seq map]. f_equal; [lia|].
  rewrite <- seq_shift, map_map. apply map_ext. intros i. lia.
Qed.

Lemma load_cons m p n : load m p (S n) = m p :: load m (p + 1) n.
Proof. unfold load. rewrite span_cons. reflexivity. Qed.

Lemma store_spec bs : forall m p a,
  store m p bs a =
  if (p <=? a) && (a <? p + Z.of_nat (length bs))
  then nth (Z.to_nat (a - p)) bs Byte.x00 else m a.
Proof.
  induction bs as [|b bs IH]; intros m p a; cbn [store length].
  - destruct (Z.leb_spec p a), (Z.ltb_spec a (p + Z.of_nat 0)); cbn; try reflexivity; lia.
  - rewrite IH. unfold store1.
    destruct (Z.leb_spec (p + 1) a), (Z.ltb_spec a (p + 1 + Z.of_nat (length bs))),
             (Z.leb_spec p a), (Z.ltb_spec a (p + Z.of_nat (S (length bs)))),
             (Z.eqb_spec a p); cbn [andb]; try lia; try reflexivity.
    + replace (Z.to_nat (a - p)) with (S (Z.to_nat (a - (p + 1)))) by lia.
      reflexivity.
    + subst a. rewrite Z.sub_diag. reflexivity.
Qed.

Lemma load_store_same bs : forall m p n,
  length bs = n -> load (store m p bs) p n = bs.
Proof.
  induction bs as [|b bs IH]; intros m p n <-; cbn [length].
  - reflexivity.
  - rewrite load_cons. cbn [store]. f_equal.
    + rewrite store_spec. unfold store1.
      destruct (Z.leb_spec (p + 1) p); [lia|]. cbn [andb].
      rewrite Z.eqb_refl. reflexivity.
    + apply IH. reflexivity.
Qed.

Lemma load_store_other bs m q n : forall p,
  p + Z.of_nat n <= q \/ q + Z.of_nat (length bs) <= p ->
  load (store m q bs) p n = load m p n.
Proof.
  induction n as [|n IH]; intros p H.
  - reflexivity.
  - rewrite !load_cons. f_equal.
    + rewrite store_spec.
      destruct (Z.leb_spec q p), (Z.ltb_spec p (q + Z.of_nat (length bs)));
        cbn [andb]; try reflexivity; lia.
    + apply IH. lia.
Qed.

(** ** Running the code *)

Lemma size_t_wrap_small z : 0 <= z < 2 ^ 64 -> size_t_wrap z = z.
Proof. intros H. unfold size_t_wrap, size_t_bits. apply Z.mod_small. exact H. Qed.

Ltac unfold_consts :=
  unfold version_of, flag_set, header_word,
    kFixedHeaderSizeBytes, kNodeIdSizeBytes, kFlagDestinationNodeIdPresent,
    kFlagSourceNodeIdPresent, kVersionMask, kVersionShift in *.

(** One round of symbolic execution: unfold the monad and the primitives,
    then project the frames that have become explicit. *)
Ltac step :=
  cbv beta iota zeta delta
    [Decode Decode_body Decode_fixed Decode_source Decode_destination
     Encode Encode_body when
     bind ret get modify goto_exit VerifyOrExit assert
     Read16 Read32 Read64 Read Write16 Write32 Write64 Write
     d_set_err d_set_this d_size_sub
     e_set_err e_header_or e_store_encode_size
     set_mMessageId set_mSourceNodeId set_mDestinationNodeId
     kFixedHeaderSizeBytes kNodeIdSizeBytes kFlagDestinationNodeIdPresent
     kFlagSourceNodeIdPresent kVersionMask kVersionShift];
  cbn [d_this d_err d_p d_size d_reads
     e_mem e_encode_size e_err e_p e_header e_writes
     mMessageId mSourceNodeId mDestinationNodeId negb HasValue
     Z.add Z.of_nat Pos.add Pos.succ Pos.of_succ_nat Pos.add_carry
     Z.eqb Pos.eqb app fst snd].

(** Decide the tests met so far from the equations in the context. *)
Ltac use_conds :=
  repeat match goal with
         | H : _ = true |- _ => rewrite H
         | H : _ = false |- _ => rewrite H
         end.

Ltac run :=
  step;
  repeat (progress (try rewrite size_t_wrap_small by lia; use_conds; step)).

(** Follow every path: split on each test as it is met. *)
Ltac split_cond :=
  match goal with
  | |- context [if ?c then _ else _] => destruct c eqn:?
  end.

Ltac run_cases := step; repeat (split_cond; step).

Lemma geb_true n m : m <= n -> (n >=? m) = true.
Proof. intros H. rewrite Z.geb_leb. apply Z.leb_le. exact H. Qed.

Lemma geb_false n m : n < m -> (n >=? m) = false.
Proof. intros H. rewrite Z.geb_leb. apply Z.leb_gt. exact H. Qed.

(** ** [Decode], path by path *)

Section DecodePaths.

Variables (V : Z) (data : memory) (size : Z) (h : MessageHeader).

Local Abbreviation word := (header_word data).
Local Abbreviation id := (le_combine (load data 2 4)).

Lemma Decode_too_short :
  size < 6 ->
  Decode V data size h =
  (Exit, mkDecodeFrame h CHIP_ERROR_INVALID_ARGUMENT 0 size []).
Proof.
  intros H. pose proof (geb_false size 6 H). run. reflexivity.
Qed.

Lemma Decode_version_mismatch :
  6 <= size -> version_of word <> V ->
  Decode V data size h =
  (Exit, mkDecodeFrame h CHIP_ERROR_VERSION_MISMATCH 2 size (span 0 2)).
Proof.
  intros H Hv. pose proof (geb_true size 6 H).
  apply Z.eqb_neq in Hv. unfold_consts. run. reflexivity.
Qed.

Hypothesis size_range : 6 <= size < 2 ^ 64.
Hypothesis version_ok : version_of word = V.

Lemma Decode_no_flags :
  flag_set word kFlagSourceNodeIdPresent = false ->
  flag_set word kFlagDestinationNodeIdPresent = false ->
  Decode V data size h =
  (Next tt, mkDecodeFrame (mkMessageHeader id None None)
                          CHIP_NO_ERROR 6 (size - 6) (span 0 6)).
Proof.
  intros Hs Hd. pose proof (geb_true size 6 (proj1 size_range)).
  apply Z.eqb_eq in version_ok. unfold_consts.
  run. reflexivity.
Qed.

Lemma Decode_source_truncated :
  flag_set word kFlagSourceNodeIdPresent = true ->
  size < 14 ->
  Decode V data size h =
  (Exit, mkDecodeFrame
           (mkMessageHeader id (mSourceNodeId h) (mDestinationNodeId h))
           CHIP_ERROR_INVALID_ARGUMENT 6 (size - 6) (span 0 6)).
Proof.
  intros Hs Hlt. pose proof (geb_true size 6 (proj1 size_range)).
  assert ((size - 6 >=? 8) = false) by (apply geb_false; lia).
  apply Z.eqb_eq in version_ok. unfold_consts.
  run. reflexivity.
Qed.

Lemma Decode_source_only :
  flag_set word kFlagSourceNodeIdPresent = true ->
  flag_set word kFlagDestinationNodeIdPresent = false ->
  14 <= size ->
  Decode V data size h =
  (Next tt, mkDecodeFrame
              (mkMessageHeader id (Some (le_combine (load data 6 8))) None)
              CHIP_NO_ERROR 14 (size - 12) (span 0 14)).
Proof.
  intros Hs Hd Hge. pose proof (geb_true size 6 (proj1 size_range)).
  assert ((size - 6 >=? 8) = true) by (apply geb_true; lia).
  apply Z.eqb_eq in version_ok. unfold_consts.
  run. replace (size - 6 - 6) with (size - 12) by lia. reflexivity.
Qed.

Lemma Decode_destination_truncated :
  flag_set word kFlagSourceNodeIdPresent = false ->
  flag_set word kFlagDestinationNodeIdPresent = true ->
  size < 14 ->
  Decode V data size h =
  (Exit, mkDecodeFrame (mkMessageHeader id None (mDestinationNodeId h))
           CHIP_ERROR_INVALID_ARGUMENT 6 (size - 6) (span 0 6)).
Proof.
  intros Hs Hd Hlt. pose proof (geb_true size 6 (proj1 size_range)).
  assert ((size - 6 >=? 8) = false) by (apply geb_false; lia).
  apply Z.eqb_eq in version_ok. unfold_consts.
  run. reflexivity.
Qed.

Lemma Decode_destination_only :
  flag_set word kFlagSourceNodeIdPresent = false ->
  flag_set word kFlagDestinationNodeIdPresent = true ->
  14 <= size ->
  Decode V data size h =
  (Next tt, mkDecodeFrame
              (mkMessageHeader id None (Some (le_combine (load data 6 8))))
              CHIP_NO_ERROR 14 (size - 12) (span 0 14)).
Proof.
  intros Hs Hd Hge. pose proof (geb_true size 6 (proj1 size_range)).
  assert ((size - 6 >=? 8) = true) by (apply geb_true; lia).
  apply Z.eqb_eq in version_ok. unfold_consts.
  run. replace (size - 6 - 6) with (size - 12) by lia. reflexivity.
Qed.

Lemma Decode_both_truncated :
  flag_set word kFlagSourceNodeIdPresent = true ->
  flag_set word kFlagDestinationNodeIdPresent = true ->
  14 <= size < 20 ->
  Decode V data size h =
  (Exit, mkDecodeFrame
           (mkMessageHeader id (Some (le_combine (load data 6 8)))
                            (mDestinationNodeId h))
           CHIP_ERROR_INVALID_ARGUMENT 14 (size - 12) (span 0 14)).
Proof.
  intros Hs Hd Hr. pose proof (geb_true size 6 (proj1 size_range)).
  assert ((size - 6 >=? 8) = true) by (apply geb_true; lia).
  assert ((size - 6 - 6 >=? 8) = false) by (apply geb_false; lia).
  apply Z.eqb_eq in version_ok. unfold_consts.
  run. replace (size - 6 - 6) with (size - 12) by lia. reflexivity.
Qed.

Lemma Decode_both :
  flag_set word kFlagSourceNodeIdPresent = true ->
  flag_set word kFlagDestinationNodeIdPresent = true ->
  20 <= size ->
  Decode V data size h =
  (Next tt, mkDecodeFrame
              (mkMessageHeader id (Some (le_combine (load data 6 8)))
                               (Some (le_combine (load data 14 8))))
              CHIP_NO_ERROR 22 (size - 18) (span 0 22)).
Proof.
  intros Hs Hd Hge. pose proof (geb_true size 6 (proj1 size_range)).
  assert ((size - 6 >=? 8) = true) by (apply geb_true; lia).
  assert ((size - 6 - 6 >=? 8) = true) by (apply geb_true; lia).
  apply Z.eqb_eq in version_ok. unfold_consts.
  run. replace (size - 6 - 6 - 6) with (size - 18) by lia. reflexivity.
Qed.

End DecodePaths.

(** ** Where truncation is rejected, and where the reads stay in bounds *)

Lemma span_In p n i : In i (span p n) -> p <= i < p + Z.of_nat n.
Proof.
  unfold span. rewrite in_map_iff. intros (k & <- & Hk).
  apply in_seq in Hk. lia.
Qed.

Lemma Forall_span size n :
  Z.of_nat n <= size -> Forall (fun i => i < size) (span 0 n).
Proof.
  intros H. apply Forall_forall. intros i Hi. apply span_In in Hi. lia.
Qed.

Lemma Decode_rejects_truncation V data size h :
  size < 2 ^ 64 ->
  (6 <= size -> version_of (header_word data) = V) ->
  size < 6 \/
  size < 14 /\
    (flag_set (header_word data) kFlagSourceNodeIdPresent = true \/
     flag_set (header_word data) kFlagDestinationNodeIdPresent = true) \/
  size < 20 /\
    flag_set (header_word data) kFlagSourceNodeIdPresent = true /\
    flag_set (header_word data) kFlagDestinationNodeIdPresent = true ->
  Decode_returns V data size h = Some CHIP_ERROR_INVALID_ARGUMENT.
Proof.
  intros Hmax Hv Hcase. unfold Decode_returns.
  destruct (Z_lt_le_dec size 6) as [Hlt | H6].
  { rewrite Decode_too_short by exact Hlt. reflexivity. }
  assert (Hr : 6 <= size < 2 ^ 64) by lia. specialize (Hv H6).
  destruct (flag_set (header_word data) kFlagSourceNodeIdPresent) eqn:Hs.
  - destruct (Z_lt_le_dec size 14) as [Hlt | H14].
    { rewrite (Decode_source_truncated V data size h Hr Hv Hs Hlt). reflexivity. }
    destruct Hcase as [Hc | [(Hc & _) | (Hc & _ & Hd)]]; try lia.
    rewrite (Decode_both_truncated V data size h Hr Hv Hs Hd (conj H14 Hc)).
    reflexivity.
  - destruct Hcase as [Hc | [(Hc & [Hf | Hd]) | (_ & Hf & _)]];
      try lia; try discriminate.
    rewrite (Decode_destination_truncated V data size h Hr Hv Hs Hd Hc).
    reflexivity.
Qed.

Lemma Decode_reads_within_stated_length V data size h :
  size < 2 ^ 64 ->
  ~ (version_of (header_word data) = V /\
     flag_set (header_word data) kFlagSourceNodeIdPresent = true /\
     flag_set (header_word data) kFlagDestinationNodeIdPresent = true /\
     20 <= size <= 21) ->
  Forall (fun i => i < size) (d_reads (snd (Decode V data size h))).
Proof.
  intros Hmax Hnot.
  destruct (Z_lt_le_dec size 6) as [Hlt | H6].
  { rewrite Decode_too_short by exact Hlt. constructor. }
  assert (Hr : 6 <= size < 2 ^ 64) by lia.
  destruct (Z.eq_dec (version_of (header_word data)) V) as [Hv | Hv].
  2:{ rewrite (Decode_version_mismatch V data size h H6 Hv).
      apply Forall_span. lia. }
  destruct (flag_set (header_word data) kFlagSourceNodeIdPresent) eqn:Hs,
           (flag_set (header_word data) kFlagDestinationNodeIdPresent) eqn:Hd.
  - destruct (Z_lt_le_dec size 14) as [Hlt | H14].
    { rewrite (Decode_source_truncated V data size h Hr Hv Hs Hlt).
      apply Forall_span. lia. }
    destruct (Z_lt_le_dec size 20) as [Hlt | H20].
    { rewrite (Decode_both_truncated V data size h Hr Hv Hs Hd (conj H14 Hlt)).
      apply Forall_span. lia. }
    rewrite (Decode_both V data size h Hr Hv Hs Hd H20).
    apply Forall_span.
    assert (~ size <= 21) by (intros Hle; apply Hnot; auto). lia.
  - destruct (Z_lt_le_dec size 14) as [Hlt | H14].
    { rewrite (Decode_source_truncated V data size h Hr Hv Hs Hlt).
      apply Forall_span. lia. }
    rewrite (Decode_source_only V data size h Hr Hv Hs Hd H14).
    apply Forall_span. lia.
  - destruct (Z_lt_le_dec size 14) as [Hlt | H14].
    { rewrite (Decode_destination_truncated V data size h Hr Hv Hs Hd Hlt).
      apply Forall_span. lia. }
    rewrite (Decode_destination_only V data size h Hr Hv Hs Hd H14).
    apply Forall_span. lia.
  - rewrite (Decode_no_flags V data size h Hr Hv Hs Hd).
    apply Forall_span. lia.
Qed.

(** ** What does not depend on the object's prior state *)

Lemma Decode_prior_irrelevant V data size h1 h2 :
  fst (Decode V data size h1) = fst (Decode V data size h2) /\
  d_err (snd (Decode V data size h1)) = d_err (snd (Decode V data size h2)) /\
  d_reads (snd (Decode V data size h1)) = d_reads (snd (Decode V data size h2)) /\
  (fst (Decode V data size h1) = Next tt ->
   snd (Decode V data size h1) = snd (Decode V data size h2)).
Proof.
  run_cases; repeat split; try reflexivity; intros; discriminate.
Qed.

Lemma Decode_mismatch_keeps_object V data size h :
  d_err (snd (Decode V data size h)) = CHIP_ERROR_VERSION_MISMATCH ->
  d_this (snd (Decode V data size h)) = h.
Proof.
  run_cases; intros; try reflexivity; discriminate.
Qed.

Lemma Decode_never_aborts V data size h :
  fst (Decode V data size h) <> Abort.
Proof.
  run_cases; discriminate.
Qed.

Lemma Decode_no_error_completes V data size h :
  d_err (snd (Decode V data size h)) = CHIP_NO_ERROR ->
  fst (Decode V data size h) = Next tt.
Proof.
  run_cases; intros; try reflexivity; discriminate.
Qed.

(** ** [EncodeSizeBytes] *)

Lemma EncodeSizeBytes_cases h :
  EncodeSizeBytes h =
  match mSourceNodeId h, mDestinationNodeId h with
  | None, None => 6
  | Some _, None | None, Some _ => 14
  | Some _, Some _ => 22
  end.
Proof.
  unfold EncodeSizeBytes.
  destruct (mSourceNodeId h), (mDestinationNodeId h); reflexivity.
Qed.

(** ** [Encode], path by path *)

Lemma store_app bs1 : forall bs2 m p,
  store m p (bs1 ++ bs2) = store (store m p bs1) (p + Z.of_nat (length bs1)) bs2.
Proof.
  induction bs1 as [|b bs1 IH]; intros bs2 m p; cbn [app store length].
  - rewrite Z.add_0_r. reflexivity.
  - rewrite IH. f_equal. lia.
Qed.

Lemma Encode_too_small V data size encode_size h :
  size < EncodeSizeBytes h ->
  Encode V data size encode_size h =
  (Exit, mkEncodeFrame data encode_size CHIP_ERROR_INVALID_ARGUMENT 0
                       (encoded_word V false false) []).
Proof.
  intros H. pose proof (geb_false _ _ H). run. reflexivity.
Qed.

Lemma Encode_fits V data size encode_size h :
  EncodeSizeBytes h <= size ->
  Encode V data size encode_size h =
  (Next tt,
   mkEncodeFrame (store data 0 (encoding V h)) (EncodeSizeBytes h)
                 CHIP_NO_ERROR (EncodeSizeBytes h)
                 (encoded_word V (HasValue (mSourceNodeId h))
                                 (HasValue (mDestinationNodeId h)))
                 (span 0 (Z.to_nat (EncodeSizeBytes h)))).
Proof.
  intros H. pose proof (geb_true _ _ H).
  rewrite EncodeSizeBytes_cases. unfold encoding.
  destruct h as [id [s|] [d|]]; run; rewrite !store_app; reflexivity.
Qed.

(** ** Reading back what [Encode] wrote *)

Lemma encoded_word_bits V src dst :
  0 <= V < 16 ->
  let w := encoded_word V src dst in
  0 <= w < 2 ^ 16 /\
  version_of w = V /\
  flag_set w kFlagSourceNodeIdPresent = src /\
  flag_set w kFlagDestinationNodeIdPresent = dst.
Proof.
  intros HV.
  assert (E : V = 0 \/ V = 1 \/ V = 2 \/ V = 3 \/ V = 4 \/ V = 5 \/ V = 6 \/
              V = 7 \/ V = 8 \/ V = 9 \/ V = 10 \/ V = 11 \/ V = 12 \/
              V = 13 \/ V = 14 \/ V = 15) by lia.
  repeat destruct E as [E | E]; subst V; destruct src, dst;
    vm_compute; repeat split; intros; discriminate.
Qed.

Lemma le_combine_split_small n z :
  0 <= z < 2 ^ (Z.of_nat n * 8) -> le_combine (le_split n z) = z.
Proof. intros H. rewrite le_combine_split. apply Z.mod_small. exact H. Qed.

Ltac read_back :=
  unfold encoding;
  cbn [HasValue mMessageId mSourceNodeId mDestinationNodeId app];
  rewrite ?app_nil_r; rewrite ?store_app, ?length_le_split;
  cbn [Z.of_nat Pos.of_succ_nat Pos.succ Z.add Pos.add Pos.add_carry];
  repeat first
    [ rewrite load_store_same by apply length_le_split
    | rewrite load_store_other by (rewrite length_le_split; lia) ].

Section ReadBack.

Variables (V : Z) (data : memory) (h : MessageHeader).

Local Abbreviation written := (store data 0 (encoding V h)).

Lemma read_back_word :
  header_word written =
  encoded_word V (HasValue (mSourceNodeId h)) (HasValue (mDestinationNodeId h)).
Proof.
  unfold header_word. destruct h as [id [s|] [d|]]; read_back;
    rewrite le_combine_split; apply Z.mod_small;
    unfold encoded_word, uint16_wrap; cbv zeta iota;
    apply Z.mod_pos_bound; lia.
Qed.

Lemma read_back_mMessageId :
  uint_in 32 (mMessageId h) ->
  le_combine (load written 2 4) = mMessageId h.
Proof.
  unfold uint_in. destruct h as [id [s|] [d|]]; intros H; read_back;
    apply le_combine_split_small; exact H.
Qed.

Lemma read_back_mSourceNodeId s :
  mSourceNodeId h = Some s -> uint_in 64 s ->
  le_combine (load written 6 8) = s.
Proof.
  unfold uint_in. destruct h as [id [s'|] [d|]]; intros [= ->] H; read_back;
    apply le_combine_split_small; exact H.
Qed.

Lemma read_back_mDestinationNodeId d :
  mDestinationNodeId h = Some d -> uint_in 64 d ->
  le_combine (load written (if HasValue (mSourceNodeId h) then 14 else 6) 8) = d.
Proof.
  unfold uint_in.
  destruct h as [id [s|] [d'|]]; intros [= ->] H;
    cbn [mSourceNodeId HasValue];
    read_back; apply le_combine_split_small; exact H.
Qed.

End ReadBack.

Lemma Decode_Encode V data size encode_size h this :
  0 <= V < 16 -> header_wf h -> EncodeSizeBytes h <= size ->
  let e := snd (Encode V data size encode_size h) in
  let d := Decode V (e_mem e) (e_encode_size e) this in
  fst d = Next tt /\
  d_err (snd d) = CHIP_NO_ERROR /\
  d_this (snd d) = h /\
  d_p (snd d) = EncodeSizeBytes h /\
  d_reads (snd d) = span 0 (Z.to_nat (EncodeSizeBytes h)).
Proof.
  intros HV (Hid & Hs & Hd) Hsize e d. subst e d.
  rewrite Encode_fits by exact Hsize. cbn [snd e_mem e_encode_size].
  pose proof (encoded_word_bits V (HasValue (mSourceNodeId h))
                (HasValue (mDestinationNodeId h)) HV) as (_ & Wv & Ws & Wd).
  rewrite <- (read_back_word V data h) in Wv, Ws, Wd.
  pose proof (read_back_mMessageId V data h Hid) as Rid.
  pose proof (read_back_mSourceNodeId V data h) as Rs.
  pose proof (read_back_mDestinationNodeId V data h) as Rd.
  rewrite EncodeSizeBytes_cases in *.
  destruct h as [id [s|] [d|]];
    cbn [mMessageId mSourceNodeId mDestinationNodeId HasValue opt_in] in *.
  - rewrite (Decode_both V _ 22) by (assumption || lia).
    rewrite Rid, (Rs s eq_refl Hs), (Rd d eq_refl Hd).
    repeat split; reflexivity.
  - rewrite (Decode_source_only V _ 14) by (assumption || lia).
    rewrite Rid, (Rs s eq_refl Hs). repeat split; reflexivity.
  - rewrite (Decode_destination_only V _ 14) by (assumption || lia).
    rewrite Rid, (Rd d eq_refl Hd). repeat split; reflexivity.
  - rewrite (Decode_no_flags V _ 6) by (assumption || lia).
    rewrite Rid. repeat split; reflexivity.
Qed.

(** * The claims *)

(** C1 (truncation rejection), evaluated where the code departs from it.
    The buffer [truncated_both] has a stated length of 20, a valid version
    and both presence flags; after the 14 bytes consumed for the fixed part
    and the source node id only 6 bytes remain, two short of a destination
    node id.  [Decode] nevertheless returns [CHIP_NO_ERROR], with a
    destination node id whose two high bytes come from beyond the stated
    length. *)
Theorem Decode_accepts_truncated_destination :
  length truncated_both = 20%nat /\
  version_of (header_word (memory_of truncated_both)) = 1 /\
  flag_set (header_word (memory_of truncated_both)) kFlagSourceNodeIdPresent = true /\
  flag_set (header_word (memory_of truncated_both)) kFlagDestinationNodeIdPresent = true /\
  20 - 14 < kNodeIdSizeBytes /\
  Decode_returns 1 (memory_of truncated_both) 20 blank = Some CHIP_NO_ERROR /\
  d_this (snd (Decode 1 (memory_of truncated_both) 20 blank)) =
  mkMessageHeader 0x01020304 (Some 0x1122334455667788) (Some 0x0000FFEEDDCCBBAA).
Proof. vm_compute. intuition (reflexivity || discriminate). Qed.

(** C2 (no read at or beyond the stated length), evaluated where the code
    departs from it.  On [truncated_both] with stated length 20, [Decode]
    reads the offsets 0 to 21: offsets 20 and 21 lie beyond the stated
    length. *)
Theorem Decode_reads_past_stated_length :
  let r := Decode 1 (memory_of truncated_both) 20 blank in
  d_reads (snd r) = span 0 22 /\
  In 20 (d_reads (snd r)) /\
  In 21 (d_reads (snd r)) /\
  ~ Forall (fun i => i < 20) (d_reads (snd r)).
Proof.
  assert (E : d_reads (snd (Decode 1 (memory_of truncated_both) 20 blank)) =
              span 0 22) by (vm_compute; reflexivity).
  cbv zeta. rewrite E. split; [reflexivity|].
  assert (I20 : In 20 (span 0 22)) by (vm_compute; tauto).
  assert (I21 : In 21 (span 0 22)) by (vm_compute; tauto).
  split; [exact I20|]. split; [exact I21|].
  intros F. rewrite Forall_forall in F. specialize (F 20 I20). lia.
Qed.

(** C3 (round trip).  For a supported version [V] that fits the four
    version bits and a header [h] whose fields fit their C++ types, in any
    of the four presence combinations: [Encode] into a buffer of capacity
    at least [EncodeSizeBytes h] succeeds and reports [EncodeSizeBytes h]
    bytes written, and [Decode] of the written bytes, whatever the prior
    state [this] of the receiving object, succeeds and leaves the object
    field-wise equal to [h]. *)
Theorem Encode_Decode_round_trip V data size encode_size h this :
  0 <= V < 16 ->
  header_wf h ->
  EncodeSizeBytes h <= size ->
  let e := snd (Encode V data size encode_size h) in
  Encode_returns V data size encode_size h = Some CHIP_NO_ERROR /\
  e_encode_size e = EncodeSizeBytes h /\
  Decode_returns V (e_mem e) (e_encode_size e) this = Some CHIP_NO_ERROR /\
  d_this (snd (Decode V (e_mem e) (e_encode_size e) this)) = h.
Proof.
  intros HV Hwf Hsize e.
  destruct (Decode_Encode V data size encode_size h this HV Hwf Hsize)
    as (Hc & He & Ht & _).
  fold e in Hc, He, Ht.
  unfold Decode_returns, Encode_returns, returned. rewrite Hc, He, Ht.
  subst e. rewrite Encode_fits by exact Hsize.
  cbn [fst snd e_err e_encode_size]. auto.
Qed.

Lemma Encode_Decode_round_trip_witness :
  0 <= 1 < 16 /\
  header_wf scenario_both /\
  EncodeSizeBytes scenario_both <= 64 /\
  d_this (snd (Decode 1 (e_mem (snd (Encode 1 zeros 64 0 scenario_both)))
                      (e_encode_size (snd (Encode 1 zeros 64 0 scenario_both)))
                      stale)) = scenario_both.
Proof.
  assert (HV : 0 <= 1 < 16) by lia.
  assert (Hwf : header_wf scenario_both) by (vm_compute; intuition discriminate).
  assert (Hsize : EncodeSizeBytes scenario_both <= 64) by (vm_compute; discriminate).
  split; [exact HV|]. split; [exact Hwf|]. split; [exact Hsize|].
  apply (Encode_Decode_round_trip 1 zeros 64 0 scenario_both stale HV Hwf Hsize).
Defined.

(** C4 (the destination bounds check).  The block that reads the source
    node id advances the cursor by [kNodeIdSizeBytes] = 8 but takes
    [kFixedHeaderSizeBytes] = 6 off the remaining-size counter.  Hence, for
    a buffer with a valid version and both presence flags, [Decode] returns
    [CHIP_NO_ERROR] exactly when the stated length is at least 20, and for a
    stated length of 20 or 21 it succeeds having read the destination node
    id from the offsets 14 to 21. *)
Theorem Decode_destination_check_off_by_two V data size h :
  0 <= size < 2 ^ 64 ->
  version_of (header_word data) = V ->
  flag_set (header_word data) kFlagSourceNodeIdPresent = true ->
  flag_set (header_word data) kFlagDestinationNodeIdPresent = true ->
  (forall f, kNodeIdSizeBytes <= d_size f < 2 ^ 64 ->
     Decode_source data (header_word data) f =
     (Next tt,
      mkDecodeFrame
        (set_mSourceNodeId (Some (le_combine (load data (d_p f) 8))) (d_this f))
        (d_err f) (d_p f + kNodeIdSizeBytes)
        (d_size f - kFixedHeaderSizeBytes)
        (d_reads f ++ span (d_p f) 8))) /\
  (Decode_returns V data size h = Some CHIP_NO_ERROR <-> 20 <= size) /\
  (20 <= size <= 21 ->
     Decode V data size h =
     (Next tt,
      mkDecodeFrame
        (mkMessageHeader (le_combine (load data 2 4))
                         (Some (le_combine (load data 6 8)))
                         (Some (le_combine (load data 14 8))))
        CHIP_NO_ERROR 22 (size - 18) (span 0 6 ++ span 6 8 ++ span 14 8))).
Proof.
  intros Hsize Hv Hs Hd. split; [|split].
  - intros [t e p s r] Hf. cbn [d_size d_p d_this d_err d_reads] in *.
    unfold kNodeIdSizeBytes in Hf. unfold flag_set in Hs.
    unfold Decode_source. rewrite Hs.
    pose proof (geb_true s 8 (proj1 Hf)).
    run. reflexivity.
  - unfold Decode_returns, returned.
    destruct (Z_lt_le_dec size 6) as [Hlt | H6].
    { rewrite Decode_too_short by exact Hlt. cbn [fst snd d_err].
      split; [discriminate | lia]. }
    assert (Hr : 6 <= size < 2 ^ 64) by lia.
    destruct (Z_lt_le_dec size 14) as [Hlt | H14].
    { rewrite (Decode_source_truncated V data size h Hr Hv Hs Hlt).
      cbn [fst snd d_err]. split; [discriminate | lia]. }
    destruct (Z_lt_le_dec size 20) as [Hlt | H20].
    { rewrite (Decode_both_truncated V data size h Hr Hv Hs Hd (conj H14 Hlt)).
      cbn [fst snd d_err]. split; [discriminate | lia]. }
    rewrite (Decode_both V data size h Hr Hv Hs Hd H20).
    cbn [fst snd d_err]. split; [intros _; exact H20 | reflexivity].
  - intros H20.
    assert (Hr : 6 <= size < 2 ^ 64) by lia.
    rewrite (Decode_both V data size h Hr Hv Hs Hd (proj1 H20)). reflexivity.
Qed.

Lemma Decode_destination_check_off_by_two_witness :
  0 <= 20 < 2 ^ 64 /\
  version_of (header_word (memory_of truncated_both)) = 1 /\
  flag_set (header_word (memory_of truncated_both)) kFlagSourceNodeIdPresent = true /\
  flag_set (header_word (memory_of truncated_both)) kFlagDestinationNodeIdPresent = true /\
  (Decode_returns 1 (memory_of truncated_both) 20 blank = Some CHIP_NO_ERROR <->
   20 <= 20).
Proof.
  assert (Hsize : 0 <= 20 < 2 ^ 64) by (split; [discriminate | reflexivity]).
  assert (Hv : version_of (header_word (memory_of truncated_both)) = 1)
    by (vm_compute; reflexivity).
  assert (Hs : flag_set (header_word (memory_of truncated_both))
                 kFlagSourceNodeIdPresent = true) by (vm_compute; reflexivity).
  assert (Hd : flag_set (header_word (memory_of truncated_both))
                 kFlagDestinationNodeIdPresent = true) by (vm_compute; reflexivity).
  split; [exact Hsize|]. split; [exact Hv|]. split; [exact Hs|]. split; [exact Hd|].
  exact (proj1 (proj2 (Decode_destination_check_off_by_two
                         1 (memory_of truncated_both) 20 blank Hsize Hv Hs Hd))).
Defined.

(** C5 (version gate).  For a buffer of stated length at least 6 whose
    header word carries a version other than [V], [Decode] returns
    [CHIP_ERROR_VERSION_MISMATCH], has read the two bytes of the header word
    and nothing else, and has left every field of the object as it was;
    the outcome is the same for any other buffer with the same two first
    bytes. *)
Theorem Decode_version_gate V data size h :
  6 <= size ->
  version_of (header_word data) <> V ->
  Decode_returns V data size h = Some CHIP_ERROR_VERSION_MISMATCH /\
  d_this (snd (Decode V data size h)) = h /\
  d_reads (snd (Decode V data size h)) = [0; 1] /\
  (forall data', data' 0 = data 0 -> data' 1 = data 1 ->
     Decode V data' size h = Decode V data size h).
Proof.
  intros Hsize Hv. unfold Decode_returns.
  rewrite (Decode_version_mismatch V data size h Hsize Hv).
  split; [reflexivity|]. split; [reflexivity|]. split; [reflexivity|].
  intros data' H0 H1.
  apply Decode_version_mismatch; [exact Hsize|].
  unfold header_word, load, span in *. cbn [map seq Z.of_nat Z.add Pos.of_succ_nat] in *.
  rewrite H0, H1. exact Hv.
Qed.

Lemma Decode_version_gate_witness :
  6 <= 6 /\
  version_of (header_word (memory_of other_version)) <> 1 /\
  Decode_returns 1 (memory_of other_version) 6 stale =
    Some CHIP_ERROR_VERSION_MISMATCH /\
  d_this (snd (Decode 1 (memory_of other_version) 6 stale)) = stale.
Proof.
  assert (Hsize : 6 <= 6) by discriminate.
  assert (Hv : version_of (header_word (memory_of other_version)) <> 1)
    by (vm_compute; discriminate).
  split; [exact Hsize|]. split; [exact Hv|].
  pose proof (Decode_version_gate 1 (memory_of other_version) 6 stale Hsize Hv)
    as (Hr & Ht & _).
  split; [exact Hr | exact Ht].
Defined.

(** C6 (encode atomicity).  When the capacity is smaller than
    [EncodeSizeBytes h], [Encode] returns [CHIP_ERROR_INVALID_ARGUMENT] and
    writes nothing: no offset is written, the memory behind [data] is the
    memory it was given, and [*encode_size] keeps its prior value. *)
Theorem Encode_too_small_writes_nothing V data size encode_size h :
  size < EncodeSizeBytes h ->
  Encode_returns V data size encode_size h = Some CHIP_ERROR_INVALID_ARGUMENT /\
  e_writes (snd (Encode V data size encode_size h)) = [] /\
  e_mem (snd (Encode V data size encode_size h)) = data /\
  e_encode_size (snd (Encode V data size encode_size h)) = encode_size.
Proof.
  intros H. unfold Encode_returns.
  rewrite (Encode_too_small V data size encode_size h H).
  repeat split.
Qed.

Lemma Encode_too_small_writes_nothing_witness :
  21 < EncodeSizeBytes scenario_both /\
  Encode_returns 1 zeros 21 0 scenario_both = Some CHIP_ERROR_INVALID_ARGUMENT /\
  e_writes (snd (Encode 1 zeros 21 0 scenario_both)) = [] /\
  e_mem (snd (Encode 1 zeros 21 0 scenario_both)) = zeros /\
  e_encode_size (snd (Encode 1 zeros 21 0 scenario_both)) = 0.
Proof.
  assert (H : 21 < EncodeSizeBytes scenario_both) by reflexivity.
  split; [exact H|].
  exact (Encode_too_small_writes_nothing 1 zeros 21 0 scenario_both H).
Defined.

(** C7 (size determinism).  [EncodeSizeBytes] is 6 plus 8 for each node id
    that is present: 6 with neither, 14 with exactly one, 22 with both.  It
    is a total function of the header alone. *)
Theorem EncodeSizeBytes_spec h :
  EncodeSizeBytes h =
    6 + 8 * Z.b2z (HasValue (mSourceNodeId h))
      + 8 * Z.b2z (HasValue (mDestinationNodeId h)) /\
  EncodeSizeBytes h =
    match mSourceNodeId h, mDestinationNodeId h with
    | None, None => 6
    | Some _, None | None, Some _ => 14
    | Some _, Some _ => 22
    end.
Proof.
  rewrite EncodeSizeBytes_cases.
  destruct (mSourceNodeId h), (mDestinationNodeId h); split; reflexivity.
Qed.

(** C8 (concrete scenarios, supported version 1).  Encoding message id
    [0x01020304] with no node id into a buffer of capacity at least 6
    succeeds, reports 6 bytes and lays out [00 10 04 03 02 01]; encoding
    the same message id with source node id [0x1122334455667788] and no
    destination into a buffer of capacity at least 14 succeeds, reports 14
    bytes and lays out [00 12 04 03 02 01 88 77 66 55 44 33 22 11].  In both
    cases exactly these offsets are written. *)
Theorem Encode_concrete_scenarios data size1 size2 encode_size :
  6 <= size1 ->
  14 <= size2 ->
  let e1 := Encode 1 data size1 encode_size scenario1 in
  let e2 := Encode 1 data size2 encode_size scenario2 in
  (Encode_returns 1 data size1 encode_size scenario1 = Some CHIP_NO_ERROR /\
   e_encode_size (snd e1) = 6 /\
   load (e_mem (snd e1)) 0 6 = bytes [0x00; 0x10; 0x04; 0x03; 0x02; 0x01] /\
   e_writes (snd e1) = span 0 6) /\
  (Encode_returns 1 data size2 encode_size scenario2 = Some CHIP_NO_ERROR /\
   e_encode_size (snd e2) = 14 /\
   load (e_mem (snd e2)) 0 14 =
     bytes [0x00; 0x12; 0x04; 0x03; 0x02; 0x01;
            0x88; 0x77; 0x66; 0x55; 0x44; 0x33; 0x22; 0x11] /\
   e_writes (snd e2) = span 0 14).
Proof.
  intros H1 H2 e1 e2. subst e1 e2. unfold Encode_returns.
  rewrite (Encode_fits 1 data size1 encode_size scenario1) by exact H1.
  rewrite (Encode_fits 1 data size2 encode_size scenario2) by exact H2.
  unfold returned. cbn [fst snd e_err e_encode_size e_mem e_writes].
  rewrite !load_store_same by reflexivity.
  split; (split; [reflexivity|]); (split; [reflexivity|]);
    split; reflexivity.
Qed.

Lemma Encode_concrete_scenarios_witness :
  6 <= 6 /\ 14 <= 14 /\
  load (e_mem (snd (Encode 1 zeros 6 0 scenario1))) 0 6 =
    bytes [0x00; 0x10; 0x04; 0x03; 0x02; 0x01] /\
  load (e_mem (snd (Encode 1 zeros 14 0 scenario2))) 0 14 =
    bytes [0x00; 0x12; 0x04; 0x03; 0x02; 0x01;
           0x88; 0x77; 0x66; 0x55; 0x44; 0x33; 0x22; 0x11].
Proof.
  assert (H1 : 6 <= 6) by discriminate.
  assert (H2 : 14 <= 14) by discriminate.
  split; [exact H1|]. split; [exact H2|].
  pose proof (Encode_concrete_scenarios zeros 6 14 0 H1 H2)
    as ((_ & _ & B1 & _) & (_ & _ & B2 & _)).
  split; [exact B1 | exact B2].
Defined.

(** C9 (early failures leave the object alone).  When the stated length
    is below 6, or when [Decode] returns [CHIP_ERROR_VERSION_MISMATCH],
    the message id and both node ids of the object are exactly what they
    were before the call. *)
Theorem Decode_early_failure_keeps_object V data size h :
  size < 6 \/ Decode_returns V data size h = Some CHIP_ERROR_VERSION_MISMATCH ->
  d_this (snd (Decode V data size h)) = h.
Proof.
  intros [Hshort | Hvm].
  - rewrite (Decode_too_short V data size h Hshort). reflexivity.
  - apply Decode_mismatch_keeps_object.
    unfold Decode_returns, returned in Hvm.
    destruct (fst (Decode V data size h)); congruence.
Qed.

Lemma Decode_early_failure_keeps_object_witness :
  (5 < 6 \/
   Decode_returns 1 (memory_of other_version) 5 stale =
     Some CHIP_ERROR_VERSION_MISMATCH) /\
  d_this (snd (Decode 1 (memory_of other_version) 5 stale)) = stale.
Proof.
  assert (H : 5 < 6 \/
              Decode_returns 1 (memory_of other_version) 5 stale =
                Some CHIP_ERROR_VERSION_MISMATCH) by (left; reflexivity).
  split; [exact H|].
  exact (Decode_early_failure_keeps_object 1 (memory_of other_version) 5 stale H).
Defined.

(** C10 (the decoded header is a function of the buffer bytes alone),
    evaluated where the code departs from it.  The buffers
    [truncated_both] and [complete_both] hold the same byte at every offset
    below 20.  With a stated length of 20, [Decode] succeeds on both from
    the same prior object, yet the two decoded headers differ in the
    destination node id: its two high bytes are taken from the offsets 20
    and 21, beyond the stated length. *)
Theorem Decode_result_depends_on_bytes_past_stated_length :
  (forall i, i < 20 -> memory_of truncated_both i = memory_of complete_both i) /\
  Decode_returns 1 (memory_of truncated_both) 20 blank = Some CHIP_NO_ERROR /\
  Decode_returns 1 (memory_of complete_both) 20 blank = Some CHIP_NO_ERROR /\
  mDestinationNodeId (d_this (snd (Decode 1 (memory_of truncated_both) 20 blank))) =
    Some 0x0000FFEEDDCCBBAA /\
  mDestinationNodeId (d_this (snd (Decode 1 (memory_of complete_both) 20 blank))) =
    Some 0x6655FFEEDDCCBBAA /\
  d_this (snd (Decode 1 (memory_of truncated_both) 20 blank)) <>
  d_this (snd (Decode 1 (memory_of complete_both) 20 blank)).
Proof.
  split.
  { intros i Hi. unfold memory_of, complete_both.
    destruct (Z.ltb_spec i 0) as [_ | H0]; [reflexivity|].
    rewrite app_nth1; [reflexivity|].
    change (length truncated_both) with 20%nat. lia. }
  split; [vm_compute; reflexivity|]. split; [vm_compute; reflexivity|].
  split; [vm_compute; reflexivity|]. split; [vm_compute; reflexivity|].
  vm_compute. discriminate.
Qed.

(** * Further properties of the codec *)

Lemma load_length m p n : length (load m p n) = n.
Proof. unfold load, span. rewrite !length_map. apply length_seq. Qed.

Lemma load_ext m m' p n :
  (forall i, p <= i < p + Z.of_nat n -> m i = m' i) ->
  load m p n = load m' p n.
Proof.
  intros H. unfold load. apply map_ext_in. intros i Hi.
  apply H. apply span_In. exact Hi.
Qed.

Lemma geb_false_inv n m : (n >=? m) = false -> n < m.
Proof. rewrite Z.geb_leb. apply Z.leb_gt. Qed.

(** X1.  The [assert] of line 69 holds on every input: [Decode] never
    aborts, and it reaches its end exactly when it returns
    [CHIP_NO_ERROR]. *)
Theorem Decode_assert_holds V data size h :
  fst (Decode V data size h) <> Abort /\
  (fst (Decode V data size h) = Next tt <->
   d_err (snd (Decode V data size h)) = CHIP_NO_ERROR).
Proof.
  run_cases; (split; [discriminate | split; intros; (reflexivity || discriminate)]).
Qed.

(** X2.  The return code of [Decode] in closed form, for a stated length
    that fits [size_t]: too short for the fixed part, then wrong version,
    then too short for the optional fields announced by the flags, where
    the length required is 6 with no flag, 14 with one flag and 20 with
    both. *)
Theorem Decode_return_code V data size h :
  0 <= size < 2 ^ 64 ->
  Decode_returns V data size h =
  Some (if size <? 6 then CHIP_ERROR_INVALID_ARGUMENT
        else if negb (version_of (header_word data) =? V)
        then CHIP_ERROR_VERSION_MISMATCH
        else if size <?
                match flag_set (header_word data) kFlagSourceNodeIdPresent,
                      flag_set (header_word data) kFlagDestinationNodeIdPresent
                with
                | false, false => 6
                | true, true => 20
                | _, _ => 14
                end
        then CHIP_ERROR_INVALID_ARGUMENT
        else CHIP_NO_ERROR).
Proof.
  intros Hsize. unfold Decode_returns.
  destruct (Z.ltb_spec size 6) as [Hlt | H6].
  { rewrite Decode_too_short by exact Hlt. reflexivity. }
  assert (Hr : 6 <= size < 2 ^ 64) by lia.
  destruct (Z.eqb_spec (version_of (header_word data)) V) as [Hv | Hv]; cbn [negb].
  2:{ rewrite (Decode_version_mismatch V data size h H6 Hv). reflexivity. }
  destruct (flag_set (header_word data) kFlagSourceNodeIdPresent) eqn:Hs,
           (flag_set (header_word data) kFlagDestinationNodeIdPresent) eqn:Hd.
  - destruct (Z.ltb_spec size 20) as [H20 | H20].
    + destruct (Z_lt_le_dec size 14) as [H14 | H14].
      * rewrite (Decode_source_truncated V data size h Hr Hv Hs H14). reflexivity.
      * rewrite (Decode_both_truncated V data size h Hr Hv Hs Hd (conj H14 H20)).
        reflexivity.
    + rewrite (Decode_both V data size h Hr Hv Hs Hd H20). reflexivity.
  - destruct (Z.ltb_spec size 14) as [H14 | H14].
    + rewrite (Decode_source_truncated V data size h Hr Hv Hs H14). reflexivity.
    + rewrite (Decode_source_only V data size h Hr Hv Hs Hd H14). reflexivity.
  - destruct (Z.ltb_spec size 14) as [H14 | H14].
    + rewrite (Decode_destination_truncated V data size h Hr Hv Hs Hd H14).
      reflexivity.
    + rewrite (Decode_destination_only V data size h Hr Hv Hs Hd H14). reflexivity.
  - destruct (Z.ltb_spec size 6) as [H | _]; [lia|].
    rewrite (Decode_no_flags V data size h Hr Hv Hs Hd). reflexivity.
Qed.

Lemma Decode_return_code_witness :
  0 <= 19 < 2 ^ 64 /\
  Decode_returns 1 (memory_of truncated_both) 19 blank =
  Some CHIP_ERROR_INVALID_ARGUMENT.
Proof.
  assert (H : 0 <= 19 < 2 ^ 64) by (split; [discriminate | reflexivity]).
  split; [exact H|].
  exact (Decode_return_code 1 (memory_of truncated_both) 19 blank H).
Defined.

Lemma Decode_reads_cursor V data size h :
  d_reads (snd (Decode V data size h)) =
  span 0 (Z.to_nat (d_p (snd (Decode V data size h)))).
Proof. run_cases; reflexivity. Qed.

(** X3.  The offsets [Decode] reads are always an initial segment of the
    buffer, [0 .. p-1] for the final cursor [p], and never reach offset 22:
    nothing before [data] or from offset 22 on is ever read, whatever the
    stated length. *)
Theorem Decode_reads_prefix V data size h :
  let f := snd (Decode V data size h) in
  d_reads f = span 0 (Z.to_nat (d_p f)) /\
  0 <= d_p f <= 22 /\
  Forall (fun i => 0 <= i < 22) (d_reads f).
Proof.
  cbv zeta. rewrite Decode_reads_cursor.
  assert (Hp : 0 <= d_p (snd (Decode V data size h)) <= 22)
    by (run_cases; split; discriminate).
  split; [reflexivity|]. split; [exact Hp|].
  apply Forall_forall. intros i Hi. apply span_In in Hi. lia.
Qed.

(** X4.  On success the cursor stands at [EncodeSizeBytes] of the decoded
    header: the number of bytes consumed is the encoded size of what was
    decoded, which is where the payload starts. *)
Theorem Decode_consumes_encoded_size V data size h :
  Decode_returns V data size h = Some CHIP_NO_ERROR ->
  d_p (snd (Decode V data size h)) =
  EncodeSizeBytes (d_this (snd (Decode V data size h))).
Proof.
  unfold Decode_returns, returned.
  run_cases; intros; try discriminate; reflexivity.
Qed.

Lemma Decode_consumes_encoded_size_witness :
  Decode_returns 1 (memory_of complete_both) 22 stale = Some CHIP_NO_ERROR /\
  d_p (snd (Decode 1 (memory_of complete_both) 22 stale)) =
  EncodeSizeBytes (d_this (snd (Decode 1 (memory_of complete_both) 22 stale))).
Proof.
  assert (H : Decode_returns 1 (memory_of complete_both) 22 stale =
              Some CHIP_NO_ERROR) by (vm_compute; reflexivity).
  split; [exact H|].
  exact (Decode_consumes_encoded_size 1 (memory_of complete_both) 22 stale H).
Defined.

Lemma le_combine_load_bound m p n :
  0 <= le_combine (load m p n) < 2 ^ (8 * Z.of_nat n).
Proof.
  pose proof (le_combine_bound (load m p n)) as H.
  rewrite load_length in H. exact H.
Qed.

(** X5.  On success every field of the decoded header fits its C++ type:
    the message id is below [2^32] and each node id that is present is
    below [2^64]. *)
Theorem Decode_result_wf V data size h :
  Decode_returns V data size h = Some CHIP_NO_ERROR ->
  header_wf (d_this (snd (Decode V data size h))).
Proof.
  unfold Decode_returns, returned, header_wf, uint_in.
  pose proof (le_combine_load_bound data 2 4).
  pose proof (le_combine_load_bound data 6 8).
  pose proof (le_combine_load_bound data 14 8).
  run_cases; intros; try discriminate;
    cbn [opt_in]; unfold uint_in; repeat split; (exact I || lia).
Qed.

Lemma Decode_result_wf_witness :
  Decode_returns 1 (memory_of complete_both) 22 stale = Some CHIP_NO_ERROR /\
  header_wf (d_this (snd (Decode 1 (memory_of complete_both) 22 stale))).
Proof.
  assert (H : Decode_returns 1 (memory_of complete_both) 22 stale =
              Some CHIP_NO_ERROR) by (vm_compute; reflexivity).
  split; [exact H|].
  exact (Decode_result_wf 1 (memory_of complete_both) 22 stale H).
Defined.

Lemma land_mask_sub w m k :
  Z.land m k = k -> Z.land w k = Z.land (Z.land w m) k.
Proof. intros H. rewrite <- Z.land_assoc, H. reflexivity. Qed.

Lemma Decode_ext V data data' size h :
  (forall i, 0 <= i < 22 -> data i = data' i) ->
  Decode V data size h = Decode V data' size h.
Proof.
  intros Hb.
  assert (L2 : load data 0 2 = load data' 0 2)
    by (apply load_ext; intros i Hi; apply Hb; lia).
  assert (L4 : load data 2 4 = load data' 2 4)
    by (apply load_ext; intros i Hi; apply Hb; lia).
  assert (L6 : load data 6 8 = load data' 6 8)
    by (apply load_ext; intros i Hi; apply Hb; lia).
  assert (L14 : load data 14 8 = load data' 14 8)
    by (apply load_ext; intros i Hi; apply Hb; lia).
  step; rewrite ?L2, ?L4, ?L6, ?L14;
    repeat (split_cond; step; rewrite ?L2, ?L4, ?L6, ?L14);
    reflexivity.
Qed.

(** X6.  [Decode] looks at the version, at the two assigned flag bits and
    at the bytes from offset 2 to 21, and at nothing else: two buffers
    whose header words agree under the mask [0xF300] and whose bytes agree
    on the offsets 2 to 21 are decoded alike.  The reserved low byte and
    the two unassigned flag bits are ignored. *)
Theorem Decode_ignores_reserved_bits V data data' size h :
  Z.land (header_word data) 0xF300 = Z.land (header_word data') 0xF300 ->
  (forall i, 2 <= i < 22 -> data i = data' i) ->
  Decode V data size h = Decode V data' size h.
Proof.
  intros Hw Hb. unfold header_word in Hw.
  assert (Ev : Z.land (le_combine (load data 0 2)) 61440 =
               Z.land (le_combine (load data' 0 2)) 61440).
  { rewrite (land_mask_sub (le_combine (load data 0 2)) 0xF300 61440 eq_refl).
    rewrite (land_mask_sub (le_combine (load data' 0 2)) 0xF300 61440 eq_refl).
    rewrite Hw. reflexivity. }
  assert (Es : Z.land (le_combine (load data 0 2)) 512 =
               Z.land (le_combine (load data' 0 2)) 512).
  { rewrite (land_mask_sub (le_combine (load data 0 2)) 0xF300 512 eq_refl).
    rewrite (land_mask_sub (le_combine (load data' 0 2)) 0xF300 512 eq_refl).
    rewrite Hw. reflexivity. }
  assert (Ed : Z.land (le_combine (load data 0 2)) 256 =
               Z.land (le_combine (load data' 0 2)) 256).
  { rewrite (land_mask_sub (le_combine (load data 0 2)) 0xF300 256 eq_refl).
    rewrite (land_mask_sub (le_combine (load data' 0 2)) 0xF300 256 eq_refl).
    rewrite Hw. reflexivity. }
  assert (L4 : load data 2 4 = load data' 2 4)
    by (apply load_ext; intros i Hi; apply Hb; lia).
  assert (L6 : load data 6 8 = load data' 6 8)
    by (apply load_ext; intros i Hi; apply Hb; lia).
  assert (L14 : load data 14 8 = load data' 14 8)
    by (apply load_ext; intros i Hi; apply Hb; lia).
  step; rewrite ?Ev, ?Es, ?Ed, ?L4, ?L6, ?L14;
    repeat (split_cond; step; rewrite ?Ev, ?Es, ?Ed, ?L4, ?L6, ?L14);
    reflexivity.
Qed.

Lemma Decode_ignores_reserved_bits_witness :
  Z.land (header_word (memory_of complete_both)) 0xF300 =
    Z.land (header_word reserved_set) 0xF300 /\
  (forall i, 2 <= i < 22 -> memory_of complete_both i = reserved_set i) /\
  Decode 1 (memory_of complete_both) 22 stale = Decode 1 reserved_set 22 stale.
Proof.
  assert (Hw : Z.land (header_word (memory_of complete_both)) 0xF300 =
               Z.land (header_word reserved_set) 0xF300)
    by (vm_compute; reflexivity).
  assert (Hb : forall i, 2 <= i < 22 -> memory_of complete_both i = reserved_set i).
  { intros i Hi. unfold reserved_set.
    destruct (Z.ltb_spec i 2) as [Hlt | _]; [|reflexivity].
    exfalso. apply (Z.lt_irrefl 2).
    apply (Z.le_lt_trans 2 i 2 (proj1 Hi) Hlt). }
  split; [exact Hw|]. split; [exact Hb|].
  exact (Decode_ignores_reserved_bits 1 (memory_of complete_both) reserved_set
           22 stale Hw Hb).
Defined.

(** X7.  Trailing bytes do no harm: if [Decode] succeeds for a stated
    length, it succeeds for every larger one (within [size_t]) and leaves
    the same header, having read the same offsets. *)
Theorem Decode_succeeds_on_longer V data size size' h :
  size <= size' < 2 ^ 64 ->
  Decode_returns V data size h = Some CHIP_NO_ERROR ->
  Decode_returns V data size' h = Some CHIP_NO_ERROR /\
  d_this (snd (Decode V data size' h)) = d_this (snd (Decode V data size h)) /\
  d_reads (snd (Decode V data size' h)) = d_reads (snd (Decode V data size h)).
Proof.
  intros Hle Hok. unfold Decode_returns in *.
  destruct (Z_lt_le_dec size 6) as [Hlt | H6].
  { rewrite Decode_too_short in Hok by exact Hlt. discriminate. }
  assert (Hr : 6 <= size < 2 ^ 64) by lia.
  assert (Hr' : 6 <= size' < 2 ^ 64) by lia.
  destruct (Z.eq_dec (version_of (header_word data)) V) as [Hv | Hv].
  2:{ rewrite (Decode_version_mismatch V data size h H6 Hv) in Hok. discriminate. }
  destruct (flag_set (header_word data) kFlagSourceNodeIdPresent) eqn:Hs,
           (flag_set (header_word data) kFlagDestinationNodeIdPresent) eqn:Hd.
  - destruct (Z_lt_le_dec size 14) as [H14 | H14].
    { rewrite (Decode_source_truncated V data size h Hr Hv Hs H14) in Hok.
      discriminate. }
    destruct (Z_lt_le_dec size 20) as [H20 | H20].
    { rewrite (Decode_both_truncated V data size h Hr Hv Hs Hd (conj H14 H20)) in Hok.
      discriminate. }
    rewrite (Decode_both V data size h Hr Hv Hs Hd H20).
    rewrite (Decode_both V data size' h Hr' Hv Hs Hd) by lia.
    repeat split.
  - destruct (Z_lt_le_dec size 14) as [H14 | H14].
    { rewrite (Decode_source_truncated V data size h Hr Hv Hs H14) in Hok.
      discriminate. }
    rewrite (Decode_source_only V data size h Hr Hv Hs Hd H14).
    rewrite (Decode_source_only V data size' h Hr' Hv Hs Hd) by lia.
    repeat split.
  - destruct (Z_lt_le_dec size 14) as [H14 | H14].
    { rewrite (Decode_destination_truncated V data size h Hr Hv Hs Hd H14) in Hok.
      discriminate. }
    rewrite (Decode_destination_only V data size h Hr Hv Hs Hd H14).
    rewrite (Decode_destination_only V data size' h Hr' Hv Hs Hd) by lia.
    repeat split.
  - rewrite (Decode_no_flags V data size h Hr Hv Hs Hd).
    rewrite (Decode_no_flags V data size' h Hr' Hv Hs Hd).
    repeat split.
Qed.

Lemma Decode_succeeds_on_longer_witness :
  22 <= 1500 < 2 ^ 64 /\
  Decode_returns 1 (memory_of complete_both) 22 stale = Some CHIP_NO_ERROR /\
  Decode_returns 1 (memory_of complete_both) 1500 stale = Some CHIP_NO_ERROR /\
  d_this (snd (Decode 1 (memory_of complete_both) 1500 stale)) =
  d_this (snd (Decode 1 (memory_of complete_both) 22 stale)).
Proof.
  assert (Hle : 22 <= 1500 < 2 ^ 64) by (split; [discriminate | reflexivity]).
  assert (H : Decode_returns 1 (memory_of complete_both) 22 stale =
              Some CHIP_NO_ERROR) by (vm_compute; reflexivity).
  split; [exact Hle|]. split; [exact H|].
  pose proof (Decode_succeeds_on_longer 1 (memory_of complete_both) 22 1500
                stale Hle H) as (R & T & _).
  split; [exact R | exact T].
Defined.

(** X8.  A failure after the version gate leaves the object partly
    updated.  When [Decode] returns [CHIP_ERROR_INVALID_ARGUMENT] for a
    stated length of at least 6, the message id has been overwritten from
    the buffer and the destination node id is untouched; the source node
    id is untouched if the source check failed, and otherwise has been set
    from the buffer or cleared, as its flag says. *)
Theorem Decode_late_failure_partial_update V data size h :
  6 <= size < 2 ^ 64 ->
  Decode_returns V data size h = Some CHIP_ERROR_INVALID_ARGUMENT ->
  d_this (snd (Decode V data size h)) =
  mkMessageHeader
    (le_combine (load data 2 4))
    (if flag_set (header_word data) kFlagSourceNodeIdPresent
     then if size <? 14 then mSourceNodeId h
          else Some (le_combine (load data 6 8))
     else None)
    (mDestinationNodeId h).
Proof.
  intros Hr Hf. unfold Decode_returns in Hf.
  destruct (Z.eq_dec (version_of (header_word data)) V) as [Hv | Hv].
  2:{ rewrite (Decode_version_mismatch V data size h (proj1 Hr) Hv) in Hf.
      discriminate. }
  destruct (flag_set (header_word data) kFlagSourceNodeIdPresent) eqn:Hs,
           (flag_set (header_word data) kFlagDestinationNodeIdPresent) eqn:Hd.
  - destruct (Z.ltb_spec size 14) as [H14 | H14].
    { rewrite (Decode_source_truncated V data size h Hr Hv Hs H14). reflexivity. }
    destruct (Z_lt_le_dec size 20) as [H20 | H20].
    { rewrite (Decode_both_truncated V data size h Hr Hv Hs Hd (conj H14 H20)).
      reflexivity. }
    rewrite (Decode_both V data size h Hr Hv Hs Hd H20) in Hf. discriminate.
  - destruct (Z.ltb_spec size 14) as [H14 | H14].
    { rewrite (Decode_source_truncated V data size h Hr Hv Hs H14). reflexivity. }
    rewrite (Decode_source_only V data size h Hr Hv Hs Hd H14) in Hf. discriminate.
  - destruct (Z_lt_le_dec size 14) as [H14 | H14].
    { rewrite (Decode_destination_truncated V data size h Hr Hv Hs Hd H14).
      reflexivity. }
    rewrite (Decode_destination_only V data size h Hr Hv Hs Hd H14) in Hf.
    discriminate.
  - rewrite (Decode_no_flags V data size h Hr Hv Hs Hd) in Hf. discriminate.
Qed.

Lemma Decode_late_failure_partial_update_witness :
  6 <= 19 < 2 ^ 64 /\
  Decode_returns 1 (memory_of truncated_both) 19 stale =
    Some CHIP_ERROR_INVALID_ARGUMENT /\
  d_this (snd (Decode 1 (memory_of truncated_both) 19 stale)) =
  mkMessageHeader 0x01020304 (Some 0x1122334455667788) (Some 9).
Proof.
  assert (Hr : 6 <= 19 < 2 ^ 64) by (split; [discriminate | reflexivity]).
  assert (H : Decode_returns 1 (memory_of truncated_both) 19 stale =
              Some CHIP_ERROR_INVALID_ARGUMENT) by (vm_compute; reflexivity).
  split; [exact Hr|]. split; [exact H|].
  rewrite (Decode_late_failure_partial_update 1 (memory_of truncated_both) 19
             stale Hr H).
  vm_compute. reflexivity.
Defined.

(** X9.  Apart from one case, [Decode] reads below the stated length only;
    and in every case it reads below the stated length plus two.  The
    exception is a buffer with a valid version, both flags set and a stated
    length of 20 or 21. *)
Theorem Decode_reads_bounded V data size h :
  0 <= size < 2 ^ 64 ->
  Forall (fun i => 0 <= i < size + 2) (d_reads (snd (Decode V data size h))) /\
  (~ (version_of (header_word data) = V /\
      flag_set (header_word data) kFlagSourceNodeIdPresent = true /\
      flag_set (header_word data) kFlagDestinationNodeIdPresent = true /\
      20 <= size <= 21) ->
   Forall (fun i => 0 <= i < size) (d_reads (snd (Decode V data size h)))).
Proof.
  intros Hsize.
  assert (Hlow : Forall (fun i => 0 <= i)
                        (d_reads (snd (Decode V data size h)))).
  { rewrite Decode_reads_cursor.
    apply Forall_forall. intros i Hi. apply span_In in Hi. lia. }
  assert (Hin : ~ (version_of (header_word data) = V /\
      flag_set (header_word data) kFlagSourceNodeIdPresent = true /\
      flag_set (header_word data) kFlagDestinationNodeIdPresent = true /\
      20 <= size <= 21) ->
      Forall (fun i => 0 <= i < size) (d_reads (snd (Decode V data size h)))).
  { intros Hn.
    pose proof (Decode_reads_within_stated_length V data size h
                  (proj2 Hsize) Hn) as Hup.
    rewrite Forall_forall in *. intros i Hi.
    specialize (Hlow i Hi). specialize (Hup i Hi). lia. }
  split; [|exact Hin].
  destruct (Z.eq_dec (version_of (header_word data)) V) as [Hv | Hv].
  2:{ eapply Forall_impl; [|apply Hin; tauto]. cbv beta. intros; lia. }
  destruct (flag_set (header_word data) kFlagSourceNodeIdPresent) eqn:Hs.
  2:{ eapply Forall_impl; [|apply Hin; intros (_ & F & _); discriminate].
      cbv beta. intros; lia. }
  destruct (flag_set (header_word data) kFlagDestinationNodeIdPresent) eqn:Hd.
  2:{ eapply Forall_impl; [|apply Hin; intros (_ & _ & F & _); discriminate].
      cbv beta. intros; lia. }
  destruct (Z_lt_le_dec size 20) as [H20 | H20].
  { eapply Forall_impl; [|apply Hin; intros (_ & _ & _ & F); lia].
    cbv beta. intros; lia. }
  assert (Hr : 6 <= size < 2 ^ 64) by lia.
  rewrite (Decode_both V data size h Hr Hv Hs Hd H20). cbn [snd d_reads].
  apply Forall_forall. intros i Hi. apply span_In in Hi. lia.
Qed.

Lemma Decode_reads_bounded_witness :
  0 <= 20 < 2 ^ 64 /\
  Forall (fun i => 0 <= i < 20 + 2)
         (d_reads (snd (Decode 1 (memory_of truncated_both) 20 blank))).
Proof.
  assert (H : 0 <= 20 < 2 ^ 64) by (split; [discriminate | reflexivity]).
  split; [exact H|].
  exact (proj1 (Decode_reads_bounded 1 (memory_of truncated_both) 20 blank H)).
Defined.

Lemma Decode_success_shape V data size h :
  Decode_returns V data size h = Some CHIP_NO_ERROR ->
  version_of (header_word data) = V /\
  d_this (snd (Decode V data size h)) =
  mkMessageHeader
    (le_combine (load data 2 4))
    (if flag_set (header_word data) kFlagSourceNodeIdPresent
     then Some (le_combine (load data 6 8)) else None)
    (if flag_set (header_word data) kFlagDestinationNodeIdPresent
     then Some (le_combine
                  (load data
                     (if flag_set (header_word data) kFlagSourceNodeIdPresent
                      then 14 else 6) 8))
     else None).
Proof.
  unfold Decode_returns, returned. unfold_consts.
  run_cases; intros; try discriminate;
    (split; [apply Z.eqb_eq; assumption | use_conds; reflexivity]).
Qed.

(** X10.  What a successful [Decode] yields: the version in the header
    word is the supported one; the message id is the little-endian value
    of the bytes 2 to 5; the source node id is present exactly when its
    flag is set and is then the value of the bytes 6 to 13; the destination
    node id is present exactly when its flag is set and is then the value of
    the eight bytes that follow, at offset 14 after a source node id and at
    offset 6 otherwise. *)
Theorem Decode_success_result V data size h :
  Decode_returns V data size h = Some CHIP_NO_ERROR ->
  let w := header_word data in
  let src := flag_set w kFlagSourceNodeIdPresent in
  let dst := flag_set w kFlagDestinationNodeIdPresent in
  version_of w = V /\
  mMessageId (d_this (snd (Decode V data size h))) = le_combine (load data 2 4) /\
  mSourceNodeId (d_this (snd (Decode V data size h))) =
    (if src then Some (le_combine (load data 6 8)) else None) /\
  mDestinationNodeId (d_this (snd (Decode V data size h))) =
    (if dst then Some (le_combine (load data (if src then 14 else 6) 8))
     else None).
Proof.
  intros Hok. destruct (Decode_success_shape V data size h Hok) as (Hv & ->).
  cbv zeta. cbn [mMessageId mSourceNodeId mDestinationNodeId]. auto.
Qed.

Lemma Decode_success_result_witness :
  Decode_returns 1 (memory_of complete_both) 22 stale = Some CHIP_NO_ERROR /\
  mMessageId (d_this (snd (Decode 1 (memory_of complete_both) 22 stale))) =
  le_combine (load (memory_of complete_both) 2 4).
Proof.
  assert (H : Decode_returns 1 (memory_of complete_both) 22 stale =
              Some CHIP_NO_ERROR) by (vm_compute; reflexivity).
  split; [exact H|].
  exact (proj1 (proj2 (Decode_success_result 1 (memory_of complete_both) 22
                         stale H))).
Defined.

Lemma In_span p n i : p <= i < p + Z.of_nat n -> In i (span p n).
Proof.
  intros H. unfold span. apply in_map_iff.
  exists (Z.to_nat (i - p)). split; [lia|]. apply in_seq. lia.
Qed.

Lemma encoding_length V h :
  length (encoding V h) = Z.to_nat (EncodeSizeBytes h).
Proof.
  rewrite EncodeSizeBytes_cases. unfold encoding.
  destruct h as [id [s|] [d|]]; reflexivity.
Qed.

Lemma EncodeSizeBytes_range h : 6 <= EncodeSizeBytes h <= 22.
Proof.
  rewrite EncodeSizeBytes_cases.
  destruct (mSourceNodeId h), (mDestinationNodeId h); lia.
Qed.

(** X11.  [Encode] stays inside the buffer it was given, on every input:
    each offset it writes is below both the capacity and
    [EncodeSizeBytes h], every byte at an offset it did not write is
    unchanged, and the length it reports never exceeds the capacity. *)
Theorem Encode_writes_within_capacity V data size encode_size h :
  let e := snd (Encode V data size encode_size h) in
  Forall (fun i => 0 <= i < size /\ i < EncodeSizeBytes h) (e_writes e) /\
  (forall a, ~ In a (e_writes e) -> e_mem e a = data a) /\
  (Encode_returns V data size encode_size h = Some CHIP_NO_ERROR ->
   e_encode_size e = EncodeSizeBytes h /\ e_encode_size e <= size).
Proof.
  cbv zeta. unfold Encode_returns.
  destruct (Z_lt_le_dec size (EncodeSizeBytes h)) as [Hlt | Hge].
  - rewrite (Encode_too_small V data size encode_size h Hlt).
    cbn [snd fst e_writes e_mem e_err returned].
    split; [constructor|]. split; [reflexivity | discriminate].
  - rewrite (Encode_fits V data size encode_size h Hge).
    cbn [snd fst e_writes e_mem e_err e_encode_size returned].
    pose proof (EncodeSizeBytes_range h) as Hn.
    split; [|split].
    + apply Forall_forall. intros i Hi. apply span_In in Hi. lia.
    + intros a Ha. rewrite store_spec, encoding_length.
      destruct (Z.leb_spec 0 a), (Z.ltb_spec a (0 + Z.of_nat (Z.to_nat (EncodeSizeBytes h))));
        cbn [andb]; try reflexivity.
      exfalso. apply Ha. apply In_span. lia.
    + intros _. split; [reflexivity | exact Hge].
Qed.

(** X12.  A successful [Encode] overwrites the whole encoded header: the
    bytes it leaves at the offsets below [EncodeSizeBytes h] are the same
    whatever the buffer held before and whatever the capacity, so no stale
    byte survives in the encoded header. *)
Theorem Encode_output_independent_of_buffer V data data' size size'
        encode_size encode_size' h :
  EncodeSizeBytes h <= size ->
  EncodeSizeBytes h <= size' ->
  load (e_mem (snd (Encode V data size encode_size h)))
       0 (Z.to_nat (EncodeSizeBytes h)) =
  load (e_mem (snd (Encode V data' size' encode_size' h)))
       0 (Z.to_nat (EncodeSizeBytes h)).
Proof.
  intros H H'.
  rewrite (Encode_fits V data size encode_size h H).
  rewrite (Encode_fits V data' size' encode_size' h H').
  cbn [snd e_mem].
  rewrite !load_store_same by apply encoding_length. reflexivity.
Qed.

Lemma Encode_output_independent_of_buffer_witness :
  EncodeSizeBytes scenario_both <= 22 /\
  EncodeSizeBytes scenario_both <= 64 /\
  load (e_mem (snd (Encode 1 zeros 22 0 scenario_both)))
       0 (Z.to_nat (EncodeSizeBytes scenario_both)) =
  load (e_mem (snd (Encode 1 (memory_of complete_both) 64 7 scenario_both)))
       0 (Z.to_nat (EncodeSizeBytes scenario_both)).
Proof.
  assert (H : EncodeSizeBytes scenario_both <= 22) by discriminate.
  assert (H' : EncodeSizeBytes scenario_both <= 64) by discriminate.
  split; [exact H|]. split; [exact H'|].
  exact (Encode_output_independent_of_buffer 1 zeros (memory_of complete_both)
           22 64 0 7 scenario_both H H').
Defined.

(** X13.  The header word [Encode] writes, for a supported version that
    fits its four bits: the version in the bits 12 to 15, the source flag
    in bit 9, the destination flag in bit 8, and zero in every other
    bit. *)
Theorem Encode_header_word V data size encode_size h :
  0 <= V < 16 ->
  EncodeSizeBytes h <= size ->
  header_word (e_mem (snd (Encode V data size encode_size h))) =
  4096 * V + 512 * Z.b2z (HasValue (mSourceNodeId h))
           + 256 * Z.b2z (HasValue (mDestinationNodeId h)).
Proof.
  intros HV Hsize.
  rewrite (Encode_fits V data size encode_size h Hsize). cbn [snd e_mem].
  rewrite read_back_word.
  assert (E : V = 0 \/ V = 1 \/ V = 2 \/ V = 3 \/ V = 4 \/ V = 5 \/ V = 6 \/
              V = 7 \/ V = 8 \/ V = 9 \/ V = 10 \/ V = 11 \/ V = 12 \/
              V = 13 \/ V = 14 \/ V = 15) by lia.
  repeat destruct E as [E | E]; subst V;
    destruct (HasValue (mSourceNodeId h)), (HasValue (mDestinationNodeId h));
    reflexivity.
Qed.

Lemma Encode_header_word_witness :
  0 <= 1 < 16 /\
  EncodeSizeBytes scenario2 <= 14 /\
  header_word (e_mem (snd (Encode 1 zeros 14 0 scenario2))) = 0x1200.
Proof.
  assert (HV : 0 <= 1 < 16) by (split; [discriminate | reflexivity]).
  assert (H : EncodeSizeBytes scenario2 <= 14) by discriminate.
  split; [exact HV|]. split; [exact H|].
  exact (Encode_header_word 1 zeros 14 0 scenario2 HV H).
Defined.

Lemma all_from_spec P n : forall z,
  all_from n z P = true ->
  forall i, z <= i < z + Z.of_nat n -> P i = true.
Proof.
  induction n as [|n IH]; intros z H i Hi; [lia|].
  cbn [all_from] in H. apply andb_prop in H. destruct H as [Hz Hr].
  destruct (Z.eq_dec i z) as [-> | Hne]; [exact Hz|].
  apply (IH (z + 1) Hr). lia.
Qed.

Lemma encoded_word_of_decoded w :
  0 <= w < 2 ^ 16 ->
  encoded_word (version_of w)
               (flag_set w kFlagSourceNodeIdPresent)
               (flag_set w kFlagDestinationNodeIdPresent) =
  Z.land w 0xF300.
Proof.
  intros Hw. apply Z.eqb_eq.
  assert (A : all_from (Z.to_nat 65536) 0 word_kept = true)
    by (vm_compute; reflexivity).
  apply (all_from_spec word_kept _ 0 A). 
  rewrite Z2Nat.id by lia. exact Hw.
Qed.

Lemma load_app m p a b :
  load m p (a + b) = load m p a ++ load m (p + Z.of_nat a) b.
Proof.
  revert p. induction a as [|a IH]; intros p.
  - cbn [Nat.add Z.of_nat load span seq map app]. rewrite Z.add_0_r. reflexivity.
  - cbn [Nat.add]. rewrite !load_cons, IH. cbn [app]. do 3 f_equal. lia.
Qed.

Lemma le_split_combine_load m p n :
  le_split n (le_combine (load m p n)) = load m p n.
Proof.
  pose proof (split_le_combine (load m p n)) as H.
  rewrite load_length in H. exact H.
Qed.

(** X14.  The round trip in the other direction.  When [Decode] succeeds
    on a buffer, encoding the decoded header (into any buffer that is large
    enough) succeeds and reproduces the bytes of the original from offset 2
    up to the encoded size; the header word is reproduced under the mask
    [0xF300], that is, with the reserved byte and the two unassigned flag
    bits set to zero. *)
Theorem Decode_Encode_reproduces_bytes V data size h data' size' encode_size :
  Decode_returns V data size h = Some CHIP_NO_ERROR ->
  EncodeSizeBytes (d_this (snd (Decode V data size h))) <= size' ->
  let h' := d_this (snd (Decode V data size h)) in
  let e := snd (Encode V data' size' encode_size h') in
  Encode_returns V data' size' encode_size h' = Some CHIP_NO_ERROR /\
  header_word (e_mem e) = Z.land (header_word data) 0xF300 /\
  load (e_mem e) 2 (Z.to_nat (EncodeSizeBytes h' - 2)) =
  load data 2 (Z.to_nat (EncodeSizeBytes h' - 2)).
Proof.
  intros Hok. destruct (Decode_success_shape V data size h Hok) as (Hv & ->).
  intros Hcap. cbv zeta. unfold Encode_returns.
  rewrite (Encode_fits V data' size' encode_size _ Hcap).
  cbn [fst snd e_mem e_err returned]. split; [reflexivity|].
  rewrite read_back_word.
  assert (W : 0 <= header_word data < 2 ^ 16)
    by (apply (le_combine_load_bound data 0 2)).
  apply encoded_word_of_decoded in W. rewrite Hv in W.
  destruct (flag_set (header_word data) kFlagSourceNodeIdPresent),
           (flag_set (header_word data) kFlagDestinationNodeIdPresent);
    cbn [mSourceNodeId mDestinationNodeId HasValue];
    (split; [exact W|]).
  - change (Z.to_nat _) with (4 + (8 + 8))%nat. rewrite !load_app.
    cbn [Z.of_nat Pos.of_succ_nat Pos.succ Z.add Pos.add Pos.add_carry].
    read_back. rewrite !le_split_combine_load. reflexivity.
  - change (Z.to_nat _) with (4 + 8)%nat. rewrite !load_app.
    cbn [Z.of_nat Pos.of_succ_nat Pos.succ Z.add Pos.add Pos.add_carry].
    read_back. rewrite !le_split_combine_load. reflexivity.
  - change (Z.to_nat _) with (4 + 8)%nat. rewrite !load_app.
    cbn [Z.of_nat Pos.of_succ_nat Pos.succ Z.add Pos.add Pos.add_carry].
    read_back. rewrite !le_split_combine_load. reflexivity.
  - change (Z.to_nat _) with 4%nat.
    read_back. rewrite !le_split_combine_load. reflexivity.
Qed.

Lemma Decode_Encode_reproduces_bytes_witness :
  Decode_returns 1 reserved_set 22 stale = Some CHIP_NO_ERROR /\
  EncodeSizeBytes (d_this (snd (Decode 1 reserved_set 22 stale))) <= 22 /\
  header_word
    (e_mem (snd (Encode 1 zeros 22 0
                        (d_this (snd (Decode 1 reserved_set 22 stale)))))) =
  Z.land (header_word reserved_set) 0xF300.
Proof.
  assert (H : Decode_returns 1 reserved_set 22 stale = Some CHIP_NO_ERROR)
    by (vm_compute; reflexivity).
  assert (Hc : EncodeSizeBytes (d_this (snd (Decode 1 reserved_set 22 stale)))
               <= 22) by (vm_compute; discriminate).
  split; [exact H|]. split; [exact Hc|].
  exact (proj1 (proj2 (Decode_Encode_reproduces_bytes 1 reserved_set 22 stale
                         zeros 22 0 H Hc))).
Defined.

(** X15.  The encoding is unambiguous.  For a supported version that fits
    its four bits, two headers whose fields fit their C++ types and whose
    encodings leave the same bytes at the offsets 0 to 21 are equal, field
    by field, presence included. *)
Theorem Encode_injective V data1 data2 size1 size2 es1 es2 h1 h2 :
  0 <= V < 16 ->
  header_wf h1 -> header_wf h2 ->
  EncodeSizeBytes h1 <= size1 -> EncodeSizeBytes h2 <= size2 ->
  (forall i, 0 <= i < 22 ->
     e_mem (snd (Encode V data1 size1 es1 h1)) i =
     e_mem (snd (Encode V data2 size2 es2 h2)) i) ->
  h1 = h2.
Proof.
  intros HV Hwf1 Hwf2 Hs1 Hs2 Hmem.
  pose proof (Decode_Encode V data1 size1 es1 h1 blank HV Hwf1 Hs1) as D1.
  pose proof (Decode_Encode V data2 size2 es2 h2 blank HV Hwf2 Hs2) as D2.
  cbv zeta in D1, D2. destruct D1 as (_ & _ & D1 & _), D2 as (_ & _ & D2 & _).
  rewrite (Encode_fits V data1 size1 es1 h1 Hs1) in *.
  rewrite (Encode_fits V data2 size2 es2 h2 Hs2) in *.
  cbn [snd e_mem e_encode_size] in *.
  assert (Hw : header_word (store data1 0 (encoding V h1)) =
               header_word (store data2 0 (encoding V h2))).
  { unfold header_word. f_equal. apply load_ext. intros i Hi.
    apply Hmem. lia. }
  rewrite !read_back_word in Hw.
  destruct (encoded_word_bits V (HasValue (mSourceNodeId h1))
              (HasValue (mDestinationNodeId h1)) HV) as (_ & _ & S1 & T1).
  destruct (encoded_word_bits V (HasValue (mSourceNodeId h2))
              (HasValue (mDestinationNodeId h2)) HV) as (_ & _ & S2 & T2).
  rewrite Hw in S1, T1. rewrite S2 in S1. rewrite T2 in T1.
  assert (Hn : EncodeSizeBytes h1 = EncodeSizeBytes h2).
  { rewrite !EncodeSizeBytes_cases.
    destruct (mSourceNodeId h1), (mSourceNodeId h2),
             (mDestinationNodeId h1), (mDestinationNodeId h2);
      cbn [HasValue] in S1, T1; try discriminate; reflexivity. }
  rewrite <- D1, <- D2, Hn. f_equal. f_equal.
  apply Decode_ext. exact Hmem.
Qed.

Lemma Encode_injective_witness :
  0 <= 1 < 16 /\
  header_wf scenario_both /\
  EncodeSizeBytes scenario_both <= 22 /\
  EncodeSizeBytes scenario_both <= 64 /\
  (forall i, 0 <= i < 22 ->
     e_mem (snd (Encode 1 zeros 22 0 scenario_both)) i =
     e_mem (snd (Encode 1 (memory_of complete_both) 64 7 scenario_both)) i) /\
  scenario_both = scenario_both.
Proof.
  assert (HV : 0 <= 1 < 16) by (split; [discriminate | reflexivity]).
  assert (Hwf : header_wf scenario_both)
    by (vm_compute; intuition discriminate).
  assert (H : EncodeSizeBytes scenario_both <= 22) by discriminate.
  assert (H' : EncodeSizeBytes scenario_both <= 64) by discriminate.
  assert (Hm : forall i, 0 <= i < 22 ->
     e_mem (snd (Encode 1 zeros 22 0 scenario_both)) i =
     e_mem (snd (Encode 1 (memory_of complete_both) 64 7 scenario_both)) i).
  { intros i Hi.
    assert (E : i = 0 \/ i = 1 \/ i = 2 \/ i = 3 \/ i = 4 \/ i = 5 \/
                i = 6 \/ i = 7 \/ i = 8 \/ i = 9 \/ i = 10 \/ i = 11 \/
                i = 12 \/ i = 13 \/ i = 14 \/ i = 15 \/ i = 16 \/
                i = 17 \/ i = 18 \/ i = 19 \/ i = 20 \/ i = 21) by lia.
    repeat destruct E as [E | E]; subst i; vm_compute; reflexivity. }
  split; [exact HV|]. split; [exact Hwf|]. split; [exact H|].
  split; [exact H'|]. split; [exact Hm|].
  exact (Encode_injective 1 zeros (memory_of complete_both) 22 64 0 7
           scenario_both scenario_both HV Hwf Hwf H H' Hm).
Defined.

(** X16.  The prior state of the object does not matter.  If [Decode]
    succeeds on a memory and stated length starting from an object in state
    [h1], it succeeds on the same memory and stated length starting from
    any other state [h2], and the two resulting objects are field-wise
    equal; the offsets read are the same too. *)
Theorem Decode_result_independent_of_prior V data size h1 h2 :
  Decode_returns V data size h1 = Some CHIP_NO_ERROR ->
  Decode_returns V data size h2 = Some CHIP_NO_ERROR /\
  d_this (snd (Decode V data size h1)) = d_this (snd (Decode V data size h2)) /\
  d_reads (snd (Decode V data size h1)) = d_reads (snd (Decode V data size h2)).
Proof.
  intros H1.
  destruct (Decode_prior_irrelevant V data size h1 h2) as (Hc & He & Hr & Hs).
  assert (Hn : fst (Decode V data size h1) = Next tt).
  { apply Decode_no_error_completes.
    unfold Decode_returns, returned in H1.
    destruct (fst (Decode V data size h1)); congruence. }
  unfold Decode_returns, returned in *.
  rewrite <- Hc, <- He, <- (Hs Hn), Hn in *.
  split; [exact H1|]. split; reflexivity.
Qed.

Lemma Decode_result_independent_of_prior_witness :
  Decode_returns 1 (memory_of complete_both) 22 blank = Some CHIP_NO_ERROR /\
  Decode_returns 1 (memory_of complete_both) 22 stale = Some CHIP_NO_ERROR /\
  d_this (snd (Decode 1 (memory_of complete_both) 22 blank)) =
  d_this (snd (Decode 1 (memory_of complete_both) 22 stale)).
Proof.
  assert (H : Decode_returns 1 (memory_of complete_both) 22 blank =
              Some CHIP_NO_ERROR) by (vm_compute; reflexivity).
  split; [exact H|].
  pose proof (Decode_result_independent_of_prior
                1 (memory_of complete_both) 22 blank stale H) as (R & T & _).
  split; [exact R | exact T].
Defined.

(** X17.  Within the stated length the decoded header is a function of
    the buffer bytes.  Take a stated length that fits [size_t] and two
    memories that hold the same byte at every offset below it, and leave
    aside the buffers with a valid version, both flags set and a stated
    length of 20 or 21.  Then [Decode] returns the same code on both,
    whatever the prior states of the two objects, reads the same offsets,
    and on success leaves field-wise equal objects. *)
Theorem Decode_function_of_stated_bytes V data data' size h h' :
  size < 2 ^ 64 ->
  (forall i, 0 <= i < size -> data i = data' i) ->
  ~ (version_of (header_word data) = V /\
     flag_set (header_word data) kFlagSourceNodeIdPresent = true /\
     flag_set (header_word data) kFlagDestinationNodeIdPresent = true /\
     20 <= size <= 21) ->
  Decode_returns V data' size h' = Decode_returns V data size h /\
  d_reads (snd (Decode V data' size h')) = d_reads (snd (Decode V data size h)) /\
  (Decode_returns V data size h = Some CHIP_NO_ERROR ->
   d_this (snd (Decode V data' size h')) = d_this (snd (Decode V data size h))).
Proof.
  intros Hmax Hb Hnot. unfold Decode_returns.
  destruct (Z_lt_le_dec size 6) as [Hlt | H6].
  { rewrite !Decode_too_short by exact Hlt.
    split; [reflexivity|]. split; [reflexivity | discriminate]. }
  assert (Hr : 6 <= size < 2 ^ 64) by lia.
  assert (Hw : header_word data' = header_word data).
  { unfold header_word. f_equal. symmetry. apply load_ext.
    intros i Hi. apply Hb. lia. }
  assert (L4 : load data' 2 4 = load data 2 4)
    by (symmetry; apply load_ext; intros i Hi; apply Hb; lia).
  destruct (Z.eq_dec (version_of (header_word data)) V) as [Hv | Hv].
  2:{ rewrite (Decode_version_mismatch V data size h H6 Hv).
      rewrite (Decode_version_mismatch V data' size h' H6)
        by (rewrite Hw; exact Hv).
      split; [reflexivity|]. split; [reflexivity | discriminate]. }
  assert (Hv' : version_of (header_word data') = V) by (rewrite Hw; exact Hv).
  destruct (flag_set (header_word data) kFlagSourceNodeIdPresent) eqn:Hs,
           (flag_set (header_word data) kFlagDestinationNodeIdPresent) eqn:Hd;
    pose proof Hs as Hs'; pose proof Hd as Hd';
    rewrite <- Hw in Hs', Hd'.
  - destruct (Z_lt_le_dec size 14) as [H14 | H14].
    { rewrite (Decode_source_truncated V data size h Hr Hv Hs H14).
      rewrite (Decode_source_truncated V data' size h' Hr Hv' Hs' H14).
      split; [reflexivity|]. split; [reflexivity | discriminate]. }
    assert (L6 : load data' 6 8 = load data 6 8)
      by (symmetry; apply load_ext; intros i Hi; apply Hb; lia).
    destruct (Z_lt_le_dec size 20) as [H20 | H20].
    { rewrite (Decode_both_truncated V data size h Hr Hv Hs Hd (conj H14 H20)).
      rewrite (Decode_both_truncated V data' size h' Hr Hv' Hs' Hd' (conj H14 H20)).
      split; [reflexivity|]. split; [reflexivity | discriminate]. }
    assert (H22 : 22 <= size).
    { assert (~ size <= 21) by (intros Hle; apply Hnot; auto). lia. }
    assert (L14 : load data' 14 8 = load data 14 8)
      by (symmetry; apply load_ext; intros i Hi; apply Hb; lia).
    rewrite (Decode_both V data size h Hr Hv Hs Hd H20).
    rewrite (Decode_both V data' size h' Hr Hv' Hs' Hd' H20).
    rewrite L4, L6, L14.
    split; [reflexivity|]. split; [reflexivity | intros _; reflexivity].
  - destruct (Z_lt_le_dec size 14) as [H14 | H14].
    { rewrite (Decode_source_truncated V data size h Hr Hv Hs H14).
      rewrite (Decode_source_truncated V data' size h' Hr Hv' Hs' H14).
      split; [reflexivity|]. split; [reflexivity | discriminate]. }
    assert (L6 : load data' 6 8 = load data 6 8)
      by (symmetry; apply load_ext; intros i Hi; apply Hb; lia).
    rewrite (Decode_source_only V data size h Hr Hv Hs Hd H14).
    rewrite (Decode_source_only V data' size h' Hr Hv' Hs' Hd' H14).
    rewrite L4, L6.
    split; [reflexivity|]. split; [reflexivity | intros _; reflexivity].
  - destruct (Z_lt_le_dec size 14) as [H14 | H14].
    { rewrite (Decode_destination_truncated V data size h Hr Hv Hs Hd H14).
      rewrite (Decode_destination_truncated V data' size h' Hr Hv' Hs' Hd' H14).
      split; [reflexivity|]. split; [reflexivity | discriminate]. }
    assert (L6 : load data' 6 8 = load data 6 8)
      by (symmetry; apply load_ext; intros i Hi; apply Hb; lia).
    rewrite (Decode_destination_only V data size h Hr Hv Hs Hd H14).
    rewrite (Decode_destination_only V data' size h' Hr Hv' Hs' Hd' H14).
    rewrite L4, L6.
    split; [reflexivity|]. split; [reflexivity | intros _; reflexivity].
  - rewrite (Decode_no_flags V data size h Hr Hv Hs Hd).
    rewrite (Decode_no_flags V data' size h' Hr Hv' Hs' Hd').
    rewrite L4.
    split; [reflexivity|]. split; [reflexivity | intros _; reflexivity].
Qed.

Lemma Decode_function_of_stated_bytes_witness :
  22 < 2 ^ 64 /\
  (forall i, 0 <= i < 22 -> memory_of complete_both i = other_tail i) /\
  ~ (version_of (header_word (memory_of complete_both)) = 1 /\
     flag_set (header_word (memory_of complete_both)) kFlagSourceNodeIdPresent = true /\
     flag_set (header_word (memory_of complete_both)) kFlagDestinationNodeIdPresent = true /\
     20 <= 22 <= 21) /\
  Decode_returns 1 other_tail 22 stale = Some CHIP_NO_ERROR /\
  d_this (snd (Decode 1 other_tail 22 stale)) =
  d_this (snd (Decode 1 (memory_of complete_both) 22 blank)).
Proof.
  assert (Hmax : 22 < 2 ^ 64) by reflexivity.
  assert (Hb : forall i, 0 <= i < 22 -> memory_of complete_both i = other_tail i).
  { intros i Hi. unfold other_tail.
    destruct (Z.ltb_spec i 22) as [_ | Hge]; [reflexivity|].
    exfalso. apply (Z.lt_irrefl 22).
    apply (Z.le_lt_trans 22 i 22 Hge (proj2 Hi)). }
  assert (Hnot :
    ~ (version_of (header_word (memory_of complete_both)) = 1 /\
       flag_set (header_word (memory_of complete_both)) kFlagSourceNodeIdPresent = true /\
       flag_set (header_word (memory_of complete_both)) kFlagDestinationNodeIdPresent = true /\
       20 <= 22 <= 21)).
  { intros (_ & _ & _ & _ & H). apply H. reflexivity. }
  assert (Hok : Decode_returns 1 (memory_of complete_both) 22 blank =
                Some CHIP_NO_ERROR) by (vm_compute; reflexivity).
  split; [exact Hmax|]. split; [exact Hb|]. split; [exact Hnot|].
  pose proof (Decode_function_of_stated_bytes 1 (memory_of complete_both)
                other_tail 22 blank stale Hmax Hb Hnot) as (R & _ & T).
  split; [rewrite R; exact Hok | exact (T Hok)].
Defined.
